(** * patiAppUserSide: time-entry validation, hours calculation and the
      daily-entry repository

    A shallow embedding of [shared/utils.py] and of the repository functions
    of [painter_app/pages/daily_entry.py], with the properties of the
    specification stated and proved (or refuted) against it.

    Conventions of the embedding:
    - a [datetime.time] at minute granularity is a record of its [hour] and
      [minute]; Python keeps every constructed [time] in range, which is the
      predicate [valid_time];
    - a Python [float] is a binary64 [PrimFloat.float];
    - a raised exception is the [Raise] case of [result];
    - the SQLite database is a record of three tables (lists of rows), a
      connection carries the pending transaction, and every repository
      function runs in a state-and-exception monad over that session. *)

From Stdlib Require Import ZArith List Bool Lia String Ascii DecimalString.
From Stdlib Require Import PrimFloat FloatOps SpecFloat FloatAxioms Uint63.
From Stdlib Require Import Sorted Permutation.
Import ListNotations.

Open Scope string_scope.
Open Scope list_scope.
Open Scope Z_scope.

(* ================================================================== *)
(** * Python values used by the program *)
(* ================================================================== *)

Module Py.

(** Exceptions the modelled code can meet.  [IntegrityError] and
    [OperationalError] are the [sqlite3.Error] subclasses; an integrity
    error carries the kind of constraint SQLite names at the start of its
    message and the rest of the message. *)
Inductive constraint_kind := UniqueC | CheckC | NotNullC | ForeignKeyC.

Inductive exn :=
| TypeError
| ValueError
| IntegrityError (k : constraint_kind) (detail : string)
| OperationalError (detail : string).

Inductive result (A : Type) :=
| Ok (a : A)
| Raise (e : exn).
Arguments Ok {A} a.
Arguments Raise {A} e.

(** [datetime.time] with [second = microsecond = 0]. *)
Record time := mk_time { hour : Z; minute : Z }.

Definition valid_time (t : time) : Prop :=
  0 <= hour t < 24 /\ 0 <= minute t < 60.

Definition valid_timeb (t : time) : bool :=
  (0 <=? hour t) && (hour t <? 24) && (0 <=? minute t) && (minute t <? 60).

(** The constructor [time(h, m)]: [ValueError] outside the ranges. *)
Definition py_time (h m : Z) : result time :=
  if valid_timeb (mk_time h m) then Ok (mk_time h m) else Raise ValueError.

(** Comparison of two naive [time] objects: lexicographic on the fields. *)
Definition time_cmp (a b : time) : comparison :=
  match hour a ?= hour b with
  | Eq => minute a ?= minute b
  | c => c
  end.

Definition time_ge (a b : time) : bool :=
  match time_cmp a b with Lt => false | _ => true end.
Definition time_le (a b : time) : bool :=
  match time_cmp a b with Gt => false | _ => true end.
Definition time_lt (a b : time) : bool :=
  match time_cmp a b with Lt => true | _ => false end.

(** Truth value of an [Optional[time]]: [None] is false, and a [time]
    object is always true (since Python 3.5 midnight is true as well). *)
Definition truthy {A : Type} (o : option A) : bool :=
  match o with Some _ => true | None => false end.

(** Truth value of a [str]: false exactly for the empty string. *)
Definition str_truthy (s : string) : bool :=
  match s with EmptyString => false | _ => true end.

(** ** Floats *)

(** [float(z)] for an integer below 2^53 in magnitude (exact). *)
Definition float_of_Z (z : Z) : float :=
  if z <? 0 then PrimFloat.opp (PrimFloat.of_uint63 (Uint63.of_Z (- z)))
  else PrimFloat.of_uint63 (Uint63.of_Z z).

(** [a / b] on two ints: the correctly rounded quotient, which for
    operands that are exact as floats is the IEEE division. *)
Definition py_truediv (a b : Z) : float :=
  PrimFloat.div (float_of_Z a) (float_of_Z b).

(** Nearest integer to [n / d] for [0 < d], ties to even. *)
Definition round_half_even (n d : Z) : Z :=
  let q := n / d in
  let r := n mod d in
  if 2 * r <? d then q
  else if d <? 2 * r then q + 1
  else if Z.even q then q else q + 1.

(** [round(x, 2)] on a float.  CPython converts the exact binary value of
    [x] to the correctly rounded decimal with two digits after the point
    (ties to even), and reads that decimal back as the nearest double.
    The exact value of a finite [x] is [m * 2^e]; the decimal is [k / 100],
    and the nearest double to it is the IEEE quotient of [k] and [100].
    Zeros, infinities and NaN are returned as they are. *)
Definition py_round2 (x : float) : float :=
  match Prim2SF x with
  | S754_finite s m e =>
      let n := 100 * Z.pos m in
      let k := if 0 <=? e then n * 2 ^ e else round_half_even n (2 ^ (- e)) in
      let r := PrimFloat.div (float_of_Z k) (float_of_Z 100) in
      if s then PrimFloat.opp r else r
  | _ => x
  end.

(** ** Strings

    A [str] is modelled by a [string] of ASCII characters; the character
    classes below are the ASCII part of Python's. *)

Definition chars (s : string) : list ascii := list_ascii_of_string s.

Definition code (c : ascii) : Z := Z.of_nat (nat_of_ascii c).

Definition in_range (lo hi : Z) (c : ascii) : bool :=
  (lo <=? code c) && (code c <=? hi).

(** ASCII digits, [0-9]. *)
Definition is_digit (c : ascii) : bool := in_range 48 57 c.
Definition digit_val (c : ascii) : Z := code c - 48.

(** [str(n)] for an int. *)
Definition str_of_Z (z : Z) : string := NilZero.string_of_int (Z.to_int z).

(** ** [datetime.strptime(s, "%H:%M")]

    The format compiles to the regular expression
    [(?P<H>2[0-3]|[0-1]\d|\d):(?P<M>[0-5]\d|\d)], matched at the start of
    the string; the first match in backtracking order is taken, and text
    left after it is an error.  Each function below lists the ways one
    piece can match, in the order the regular expression tries them. *)

Definition match_H (s : list ascii) : list (Z * list ascii) :=
  (match s with
   | a :: b :: r =>
       if (code a =? 50) && in_range 48 51 b
       then [(20 + digit_val b, r)] else []
   | _ => []
   end) ++
  (match s with
   | a :: b :: r =>
       if in_range 48 49 a && is_digit b
       then [(10 * digit_val a + digit_val b, r)] else []
   | _ => []
   end) ++
  (match s with
   | a :: r => if is_digit a then [(digit_val a, r)] else []
   | _ => []
   end).

Definition match_colon (s : list ascii) : list (list ascii) :=
  match s with
  | c :: r => if code c =? 58 then [r] else []
  | _ => []
  end.

Definition match_M (s : list ascii) : list (Z * list ascii) :=
  (match s with
   | a :: b :: r =>
       if in_range 48 53 a && is_digit b
       then [(10 * digit_val a + digit_val b, r)] else []
   | _ => []
   end) ++
  (match s with
   | a :: r => if is_digit a then [(digit_val a, r)] else []
   | _ => []
   end).

Definition match_HM (s : list ascii) : list (Z * Z * list ascii) :=
  flat_map (fun hr : Z * list ascii =>
    flat_map (fun r1 : list ascii =>
      map (fun mr : Z * list ascii => (fst hr, fst mr, snd mr)) (match_M r1))
      (match_colon (snd hr)))
    (match_H s).

Definition strptime_HM (s : string) : result time :=
  match match_HM (chars s) with
  | [] => Raise ValueError
  | (h, m, rest) :: _ =>
      match rest with
      | [] => py_time h m
      | _ :: _ => Raise ValueError
      end
  end.

End Py.
Export Py.

(* ================================================================== *)
(** * shared/utils.py *)
(* ================================================================== *)

Module Utils.

(** [parse_time]: the parsed time, or [None] on [ValueError]. *)
Definition parse_time (time_str : string) : option time :=
  match strptime_HM time_str with
  | Ok t => Some t
  | Raise _ => None
  end.

Definition msg_work_order : string :=
  "Work start time must be before work end time".
Definition msg_both_break : string :=
  "Both break start and end times must be set".
Definition msg_break_order : string :=
  "Break start time must be before break end time".
Definition msg_break_before_work : string :=
  "Break cannot start before work starts".
Definition msg_break_after_work : string :=
  "Break cannot end after work ends".

Definition validate_times (work_start : time)
    (break_start break_end : option time) (work_end : time) : bool * string :=
  if time_ge work_start work_end then (false, msg_work_order)
  else if negb (truthy break_start) && negb (truthy break_end)
  then (true, EmptyString)
  else if negb (Bool.eqb (truthy break_start) (truthy break_end))
  then (false, msg_both_break)
  else
    match break_start, break_end with
    | Some bs, Some be =>
        if time_ge bs be then (false, msg_break_order)
        else if time_le bs work_start then (false, msg_break_before_work)
        else if time_ge be work_end then (false, msg_break_after_work)
        else (true, EmptyString)
    | _, _ => (true, EmptyString)
    end.

Definition time_to_minutes (t : time) : Z := hour t * 60 + minute t.

Definition calculate_break_deduction (break_start break_end : time) : Z :=
  let break_duration := time_to_minutes break_end - time_to_minutes break_start in
  if break_duration <=? 30 then 0 else 30.

Definition calculate_hours (work_start : time)
    (break_start break_end : option time) (work_end : time) : float * Z :=
  let total_minutes := time_to_minutes work_end - time_to_minutes work_start in
  match break_start, break_end with
  | Some bs, Some be =>
      let actual_break := time_to_minutes be - time_to_minutes bs in
      let break_deduction := calculate_break_deduction bs be in
      (py_round2 (py_truediv (total_minutes - actual_break) 60), break_deduction)
  | _, _ => (py_round2 (py_truediv total_minutes 60), 0)
  end.

End Utils.
Export Utils.

(* ================================================================== *)
(** * The SQLite store behind [shared/database.py] *)
(* ================================================================== *)

Module Store.

(** Rows of the three tables the repository functions touch. *)
Record location_row := mk_location
  { loc_id : Z; loc_user_id : Z; loc_name : string;
    loc_address : option string; loc_active : bool }.

Record entry_row := mk_entry
  { ent_id : Z; ent_user_id : Z; ent_date : string;
    ent_start_time : string; ent_end_time : string;
    ent_break_start : option string; ent_break_end : option string;
    ent_updated_at : Z }.

Record daily_location_row := mk_daily_location
  { dl_entry_id : Z; dl_location_id : Z; dl_sequence_order : Z }.

Record db := mk_db
  { locations : list location_row;
    daily_entries : list entry_row;
    daily_locations : list daily_location_row }.

(** Modelled from the spec: [database/schema.sql] is not among the sources.
    The spec names the tables and columns, the uniqueness of
    [(user_id, entry_date)] in [daily_entries] (the conflict target of the
    upsert) and of [(entry_id, sequence_order)] in [daily_locations]; these
    two are built into the statements below.  Whatever else the schema
    declares (CHECK, NOT NULL, further UNIQUE or FOREIGN KEY constraints)
    is a parameter: each function is given the rows already in the table
    and the row to be stored, and names the violated constraint, if any.
    [today] is [DATE('now')] and [now] is [CURRENT_TIMESTAMP]. *)
Record backend := mk_backend
  { today : string;
    now : Z;
    location_constraints :
      list location_row -> location_row -> option (constraint_kind * string);
    entry_constraints :
      list entry_row -> entry_row -> option (constraint_kind * string);
    daily_location_constraints :
      list daily_location_row -> daily_location_row ->
      option (constraint_kind * string) }.

(** What a connection did, in order. *)
Inductive event :=
| EvConnect | EvSelect | EvBegin | EvInsert | EvUpsert | EvDelete
| EvCommit | EvRollback | EvClose.

(** [store] is the database as every later connection sees it; [txn] is
    the working copy of the open transaction of the current connection. *)
Record session := mk_session
  { store : db; txn : option db; trace : list event }.

Definition M (A : Type) : Type := session -> result A * session.

Definition ret {A : Type} (a : A) : M A := fun s => (Ok a, s).

Definition bind {A B : Type} (m : M A) (k : A -> M B) : M B :=
  fun s =>
    match m s with
    | (Ok a, s') => k a s'
    | (Raise e, s') => (Raise e, s')
    end.

Definition raise {A : Type} (e : exn) : M A := fun s => (Raise e, s).

Declare Scope store_scope.
Delimit Scope store_scope with store.
Notation "x <- m ;; k" := (bind m (fun x => k))
  (at level 100, m at next level, right associativity) : store_scope.
Notation "m ;; k" := (bind m (fun _ => k))
  (at level 100, right associativity) : store_scope.
Open Scope store_scope.

(** [try: body except ...: handler]: [handler e] is [None] when no
    [except] clause matches the exception. *)
Definition try_except {A : Type} (body : M A)
    (handler : exn -> option (M A)) : M A :=
  fun s =>
    match body s with
    | (Ok a, s') => (Ok a, s')
    | (Raise e, s') =>
        match handler e with
        | Some h => h s'
        | None => (Raise e, s')
        end
    end.

(** [try: body finally: fin], the [finally] clause running on a return
    and on an exception alike. *)
Definition try_finally {A : Type} (body : M A) (fin : M unit) : M A :=
  fun s =>
    match body s with
    | (r, s') =>
        match fin s' with
        | (Ok _, s'') => (r, s'')
        | (Raise e, s'') => (Raise e, s'')
        end
    end.

Definition view (s : session) : db :=
  match txn s with Some d => d | None => store s end.

Definition log (e : event) (s : session) : session :=
  mk_session (store s) (txn s) (trace s ++ [e]).

(** [get_db_connection()]: a fresh connection, no transaction open. *)
Definition get_db_connection : M unit :=
  fun s => (Ok tt, mk_session (store s) None (trace s ++ [EvConnect])).

(** [cursor.execute("BEGIN TRANSACTION")]. *)
Definition begin_transaction : M unit :=
  fun s =>
    match txn s with
    | Some _ =>
        (Raise (OperationalError
                  "cannot start a transaction within a transaction"),
         log EvBegin s)
    | None => (Ok tt, mk_session (store s) (Some (store s)) (trace s ++ [EvBegin]))
    end.

(** [conn.commit()]: the working copy becomes the stored database. *)
Definition commit : M unit :=
  fun s => (Ok tt, mk_session (view s) None (trace s ++ [EvCommit])).

(** [conn.rollback()]: the working copy is dropped. *)
Definition rollback : M unit :=
  fun s => (Ok tt, mk_session (store s) None (trace s ++ [EvRollback])).

(** [conn.close()]: SQLite rolls back a transaction that is still open
    when its connection is closed; nothing is committed implicitly. *)
Definition close : M unit :=
  fun s => (Ok tt, mk_session (store s) None (trace s ++ [EvClose])).

(** A SELECT, reading the working copy when a transaction is open. *)
Definition query {A : Type} (q : db -> A) : M A :=
  fun s => (Ok (q (view s)), log EvSelect s).

(** An INSERT, UPDATE or DELETE.  The [sqlite3] module opens a
    transaction before the statement when none is open; a statement that
    violates a constraint changes nothing and leaves the transaction
    open. *)
Definition write {A : Type} (ev : event) (f : db -> result (A * db)) : M A :=
  fun s =>
    match f (view s) with
    | Ok (a, d') => (Ok a, mk_session (store s) (Some d') (trace s ++ [ev]))
    | Raise e => (Raise e, mk_session (store s) (Some (view s)) (trace s ++ [ev]))
    end.

(** Run a function on a stored database: what it returned or raised, the
    stored database afterwards, and what its connection did. *)
Definition run {A : Type} (m : M A) (d : db) : result A * db * list event :=
  match m (mk_session d None []) with
  | (r, s) => (r, store s, trace s)
  end.

(** [str(e)] of an exception from SQLite. *)
Definition kind_prefix (k : constraint_kind) : string :=
  match k with
  | UniqueC => "UNIQUE constraint failed"
  | CheckC => "CHECK constraint failed"
  | NotNullC => "NOT NULL constraint failed"
  | ForeignKeyC => "FOREIGN KEY constraint failed"
  end.

Definition str_exn (e : exn) : string :=
  match e with
  | IntegrityError k d => kind_prefix k ++ d
  | OperationalError d => d
  | TypeError => "TypeError"
  | ValueError => "ValueError"
  end.

Definition is_sqlite_error (e : exn) : bool :=
  match e with
  | IntegrityError _ _ | OperationalError _ => true
  | _ => false
  end.

(** The rowid SQLite gives a new row: one more than the largest in use. *)
Definition next_id (ids : list Z) : Z := 1 + fold_right Z.max 0 ids.

(** [LOWER(x)]: SQLite folds the ASCII letters only. *)
Definition lower_char (c : ascii) : ascii :=
  if in_range 65 90 c then ascii_of_nat (nat_of_ascii c + 32) else c.

Definition sql_lower (s : string) : string :=
  string_of_list_ascii (map lower_char (chars s)).

Definition violated {A : Type} (c : option (constraint_kind * string))
    (otherwise : result A) : result A :=
  match c with
  | Some (k, d) => Raise (IntegrityError k d)
  | None => otherwise
  end.

End Store.
Export Store.

(* ================================================================== *)
(** * painter_app/pages/daily_entry.py *)
(* ================================================================== *)

Module DailyEntry.

(** ** Python dictionaries returned to the page *)

(** A column value of a [sqlite3.Row]; [dict(row)] keeps the column names
    of the SELECT as keys. *)
Inductive scalar :=
| VNone
| VInt (z : Z)
| VStr (s : string).

Definition row_dict : Type := list (string * scalar).

Inductive pyval :=
| VScalar (v : scalar)
| VRows (rows : list row_dict).

Definition dict : Type := list (string * pyval).

(** [d.get(key)]; [None] here means that the key is missing. *)
Fixpoint dict_get (key : string) (d : dict) : option pyval :=
  match d with
  | [] => None
  | (k, v) :: rest => if String.eqb k key then Some v else dict_get key rest
  end.

Definition opt_str (o : option string) : scalar :=
  match o with Some s => VStr s | None => VNone end.

(** ** [sanitize_input] *)

(** [c.isalnum()] on ASCII: letters and digits. *)
Definition is_alnum (c : ascii) : bool :=
  in_range 48 57 c || in_range 65 90 c || in_range 97 122 c.

(** [c in ' -_.,()#']. *)
Definition is_allowed_punct (c : ascii) : bool :=
  existsb (fun x => code c =? code x) (chars " -_.,()#").

(** The characters [str.strip()] removes among ASCII. *)
Definition is_space (c : ascii) : bool :=
  in_range 9 13 c || in_range 28 32 c.

Fixpoint lstrip (s : list ascii) : list ascii :=
  match s with
  | c :: r => if is_space c then lstrip r else s
  | [] => []
  end.

Definition strip (s : list ascii) : list ascii :=
  rev (lstrip (rev (lstrip s))).

Definition sanitize_input (text : string) (max_length : nat) : string :=
  if negb (str_truthy text) then EmptyString
  else
    let sanitized := filter (fun c => is_alnum c || is_allowed_punct c) (chars text) in
    string_of_list_ascii (strip (firstn max_length sanitized)).

(** ** Messages *)

Definition msg_name_empty : string := "Location name cannot be empty".
Definition msg_name_no_valid : string := "Location name contains no valid characters".
Definition msg_exists (name : string) : string :=
  "Location '" ++ name ++ "' already exists".
Definition msg_limit : string := "Maximum number of locations (100) reached".
Definition msg_added (name : string) : string :=
  "Location '" ++ name ++ "' added successfully".
Definition msg_constraint : string := "Database constraint violation".
Definition msg_db_error (e : exn) : string := "Database error: " ++ str_exn e.
Definition msg_no_location : string := "At least one location must be selected".
Definition msg_invalid_locations : string :=
  "One or more selected locations are inactive or do not exist".
Definition msg_order_used (order : Z) : string :=
  "Location sequence order " ++ str_of_Z order ++ " is already used".
Definition msg_invalid_time_values : string :=
  "Invalid time values. Please check your entry".
Definition msg_saved : string := "Entry saved successfully".

Section Repository.

Variable env : backend.

(** ** SQL statements of [add_location] *)

(** [SELECT id FROM locations WHERE user_id = ? AND LOWER(name) = LOWER(?)
    AND active = 1], then [fetchone()]. *)
Definition select_location_by_name (user_id : Z) (name : string) (d : db)
    : option Z :=
  option_map loc_id
    (find (fun l => (loc_user_id l =? user_id)
                    && String.eqb (sql_lower (loc_name l)) (sql_lower name)
                    && loc_active l)
          (locations d)).

(** [SELECT COUNT( * ) FROM locations WHERE user_id = ? AND active = 1]. *)
Definition count_active_locations (user_id : Z) (d : db) : Z :=
  Z.of_nat (List.length (filter (fun l => (loc_user_id l =? user_id) && loc_active l)
                           (locations d))).

(** [INSERT INTO locations (user_id, name, address) VALUES (?, ?, ?)].
    Modelled from the spec: the column defaults are in the missing schema;
    a new location gets the next rowid and is active. *)
Definition insert_location (user_id : Z) (name : string)
    (address : option string) (d : db) : result (unit * db) :=
  let row := mk_location (next_id (map loc_id (locations d)))
                         user_id name address true in
  violated (location_constraints env (locations d) row)
    (Ok (tt, mk_db (locations d ++ [row]) (daily_entries d) (daily_locations d))).

Definition add_location (user_id : Z) (name : string)
    (address : option string) : M (bool * string) :=
  if negb (str_truthy name) then ret (false, msg_name_empty)
  else
    let name := sanitize_input name 50 in
    if negb (str_truthy name) then ret (false, msg_name_no_valid)
    else
      let address :=
        match address with
        | Some a => if str_truthy a then Some (sanitize_input a 100) else Some a
        | None => None
        end in
      try_finally
        (try_except
           (get_db_connection ;;
            begin_transaction ;;
            existing <- query (select_location_by_name user_id name) ;;
            if truthy existing then ret (false, msg_exists name)
            else
              n <- query (count_active_locations user_id) ;;
              if 100 <=? n then ret (false, msg_limit)
              else
                write EvInsert (insert_location user_id name address) ;;
                commit ;;
                ret (true, msg_added name))
           (fun e =>
              match e with
              | IntegrityError _ _ => Some (rollback ;; ret (false, msg_constraint))
              | OperationalError _ => Some (rollback ;; ret (false, msg_db_error e))
              | _ => None
              end))
        close.

(** ** [get_todays_entry] *)

Definition is_todays_entry (user_id : Z) (e : entry_row) : bool :=
  (ent_user_id e =? user_id) && String.eqb (ent_date e) (today env).

(** [SELECT id, start_time, end_time, break_start, break_end FROM
    daily_entries WHERE user_id = ? AND entry_date = DATE('now')], then
    [fetchone()]. *)
Definition select_todays_entry (user_id : Z) (d : db) : option entry_row :=
  find (is_todays_entry user_id) (daily_entries d).

Fixpoint insert_by_order (x : location_row * daily_location_row)
    (l : list (location_row * daily_location_row))
    : list (location_row * daily_location_row) :=
  match l with
  | [] => [x]
  | y :: r =>
      if dl_sequence_order (snd x) <? dl_sequence_order (snd y)
      then x :: l else y :: insert_by_order x r
  end.

Definition order_by_sequence (l : list (location_row * daily_location_row))
    : list (location_row * daily_location_row) :=
  fold_right insert_by_order [] l.

Definition joined_row (x : location_row * daily_location_row) : row_dict :=
  [("id", VInt (loc_id (fst x)));
   ("name", VStr (loc_name (fst x)));
   ("address", opt_str (loc_address (fst x)));
   ("sequence_order", VInt (dl_sequence_order (snd x)))].

(** [SELECT l.id, l.name, l.address, dl.sequence_order FROM daily_locations
    dl JOIN locations l ON dl.location_id = l.id WHERE dl.entry_id = ?
    ORDER BY dl.sequence_order], then [fetchall()]. *)
Definition select_entry_locations (entry_id : Z) (d : db) : list row_dict :=
  map joined_row
    (order_by_sequence
       (flat_map
          (fun dl =>
             if dl_entry_id dl =? entry_id
             then map (fun l => (l, dl))
                      (filter (fun l => dl_location_id dl =? loc_id l) (locations d))
             else [])
          (daily_locations d))).

Definition get_todays_entry (user_id : Z) : M (option dict) :=
  get_db_connection ;;
  try_finally
    (entry <- query (select_todays_entry user_id) ;;
     match entry with
     | None => ret None
     | Some entry =>
         locations <- query (select_entry_locations (ent_id entry)) ;;
         ret (Some [("id", VScalar (VInt (ent_id entry)));
                    ("start_time", VScalar (VStr (ent_start_time entry)));
                    ("end_time", VScalar (VStr (ent_end_time entry)));
                    ("locations", VRows locations)])
     end)
    close.

(** ** [save_entry] *)

(** The call [validate_times(parse_time(start), ..., parse_time(end))]:
    the first comparison, [work_start >= work_end], raises [TypeError]
    when [parse_time] gave [None] for either work time. *)
Definition validate_times_call (work_start : option time)
    (break_start break_end : option time) (work_end : option time)
    : result (bool * string) :=
  match work_start, work_end with
  | Some ws, Some we => Ok (validate_times ws break_start break_end we)
  | _, _ => Raise TypeError
  end.

(** [parse_time(x) if x else None] on an [Optional[str]]. *)
Definition parse_optional (x : option string) : option time :=
  match x with
  | Some s => if str_truthy s then parse_time s else None
  | None => None
  end.

(** [SELECT COUNT( * ) FROM locations WHERE id IN (...) AND active = 1]. *)
Definition count_active_in (location_ids : list Z) (d : db) : Z :=
  Z.of_nat (List.length
    (filter (fun l => existsb (Z.eqb (loc_id l)) location_ids && loc_active l)
            (locations d))).

(** [INSERT INTO daily_entries ... ON CONFLICT(user_id, entry_date) DO
    UPDATE SET ... RETURNING id]. *)
Definition upsert_entry (user_id : Z) (start_time end_time : string)
    (break_start break_end : option string) (d : db) : result (Z * db) :=
  match find (is_todays_entry user_id) (daily_entries d) with
  | Some old =>
      let row := mk_entry (ent_id old) user_id (today env) start_time end_time
                          break_start break_end (now env) in
      violated
        (entry_constraints env
           (filter (fun e => negb (is_todays_entry user_id e)) (daily_entries d))
           row)
        (Ok (ent_id old,
             mk_db (locations d)
                   (map (fun e => if is_todays_entry user_id e
                                  then mk_entry (ent_id e) user_id (today env)
                                         start_time end_time break_start
                                         break_end (now env)
                                  else e)
                        (daily_entries d))
                   (daily_locations d)))
  | None =>
      let row := mk_entry (next_id (map ent_id (daily_entries d))) user_id
                          (today env) start_time end_time break_start break_end
                          (now env) in
      violated (entry_constraints env (daily_entries d) row)
        (Ok (ent_id row,
             mk_db (locations d) (daily_entries d ++ [row]) (daily_locations d)))
  end.

(** [DELETE FROM daily_locations WHERE entry_id = ?]. *)
Definition delete_entry_locations (entry_id : Z) (d : db) : result (unit * db) :=
  Ok (tt, mk_db (locations d) (daily_entries d)
                (filter (fun r => negb (dl_entry_id r =? entry_id))
                        (daily_locations d))).

(** [INSERT INTO daily_locations (entry_id, location_id, sequence_order)
    VALUES (?, ?, ?)], under [UNIQUE(entry_id, sequence_order)]. *)
Definition insert_daily_location (entry_id loc_id order : Z) (d : db)
    : result (unit * db) :=
  let row := mk_daily_location entry_id loc_id order in
  violated (daily_location_constraints env (daily_locations d) row)
    (if existsb (fun r => (dl_entry_id r =? entry_id)
                          && (dl_sequence_order r =? order))
                (daily_locations d)
     then Raise (IntegrityError UniqueC
                   ": daily_locations.entry_id, daily_locations.sequence_order")
     else Ok (tt, mk_db (locations d) (daily_entries d)
                        (daily_locations d ++ [row]))).

(** The loop [for order, loc_id in enumerate(location_ids, 1)].  The
    result is [Some v] when the body returned [v] from [save_entry], and
    [None] when the loop ran to its end.  The test
    ["UNIQUE constraint failed" in str(e)] is the test on the kind of
    constraint SQLite reports. *)
Fixpoint insert_locations (entry_id order : Z) (location_ids : list Z)
    : M (option (bool * string)) :=
  match location_ids with
  | [] => ret None
  | loc_id :: rest =>
      r <- try_except
             (write EvInsert (insert_daily_location entry_id loc_id order) ;;
              ret None)
             (fun e =>
                match e with
                | IntegrityError UniqueC _ => Some (ret (Some (false, msg_order_used order)))
                | _ => None
                end) ;;
      match r with
      | Some v => ret (Some v)
      | None => insert_locations entry_id (order + 1) rest
      end
  end.

(** The inner [try] of [save_entry]: upsert, delete, insert loop and
    commit, with its [except sqlite3.IntegrityError] clause. *)
Definition save_entry_transaction (user_id : Z) (start_time end_time : string)
    (break_start break_end : option string) (location_ids : list Z)
    : M (bool * string) :=
  try_except
    (entry_id <- write EvUpsert
                   (upsert_entry user_id start_time end_time
                                 break_start break_end) ;;
     write EvDelete (delete_entry_locations entry_id) ;;
     r <- insert_locations entry_id 1 location_ids ;;
     match r with
     | Some v => ret v
     | None => commit ;; ret (true, msg_saved)
     end)
    (fun e =>
       match e with
       | IntegrityError CheckC _ => Some (ret (false, msg_invalid_time_values))
       | _ => None
       end).

(** The outer [try] of [save_entry], on the connection just opened: the
    check of the location ids, the transaction, [except sqlite3.Error]
    and [finally: conn.close()]. *)
Definition save_entry_connected (user_id : Z) (start_time end_time : string)
    (break_start break_end : option string) (location_ids : list Z)
    : M (bool * string) :=
  try_finally
    (try_except
       (count <- query (count_active_in location_ids) ;;
        if negb (count =? Z.of_nat (List.length location_ids))
        then ret (false, msg_invalid_locations)
        else
          begin_transaction ;;
          save_entry_transaction user_id start_time end_time
            break_start break_end location_ids)
       (fun e =>
          if is_sqlite_error e
          then Some (rollback ;; ret (false, msg_db_error e))
          else None))
    close.

Definition save_entry (user_id : Z) (start_time end_time : string)
    (break_start break_end : option string) (location_ids : list Z)
    : M (bool * string) :=
  v <- (fun s => (validate_times_call (parse_time start_time)
                    (parse_optional break_start) (parse_optional break_end)
                    (parse_time end_time), s)) ;;
  let '(is_valid, error) := v in
  if negb is_valid then ret (false, error)
  else
    match location_ids with
    | [] => ret (false, msg_no_location)
    | _ :: _ =>
        get_db_connection ;;
        save_entry_connected user_id start_time end_time
          break_start break_end location_ids
    end.

End Repository.

(** ** [calculate_break_time] *)

Definition calculate_break_time (start_time end_time : time)
    : result (option time * option time) :=
  let start_minutes := hour start_time * 60 + minute start_time in
  let end_minutes := hour end_time * 60 + minute end_time in
  let total_minutes := end_minutes - start_minutes in
  if total_minutes <? 360 then Ok (None, None)
  else
    let mid_minutes := start_minutes + total_minutes / 2 in
    let break_start_minutes := mid_minutes - 30 in
    let break_end_minutes := mid_minutes + 30 in
    match py_time (break_start_minutes / 60) (break_start_minutes mod 60) with
    | Raise e => Raise e
    | Ok break_start =>
        match py_time (break_end_minutes / 60) (break_end_minutes mod 60) with
        | Raise e => Raise e
        | Ok break_end => Ok (Some break_start, Some break_end)
        end
    end.

End DailyEntry.
Export DailyEntry.

(* ================================================================== *)
(** * The rest of painter_app/pages/daily_entry.py *)
(* ================================================================== *)

Module Page.

(** ** [get_user_locations] *)

Definition location_dict (l : location_row) : row_dict :=
  [("id", VInt (loc_id l));
   ("name", VStr (loc_name l));
   ("address", opt_str (loc_address l))].

Section UserLocations.

(** Modelled from the spec: the collation of [locations.name], which
    [ORDER BY name] follows, is declared in the missing schema.
    [name_before a b] says that [a] sorts strictly before [b] under it;
    for BINARY, the default of SQLite, it is [String.ltb]. *)
Variable name_before : string -> string -> bool.

Fixpoint insert_by_name (x : location_row) (l : list location_row)
    : list location_row :=
  match l with
  | [] => [x]
  | y :: r =>
      if name_before (loc_name x) (loc_name y)
      then x :: l else y :: insert_by_name x r
  end.

Definition order_by_name (l : list location_row) : list location_row :=
  fold_right insert_by_name [] l.

(** [SELECT id, name, address FROM locations WHERE user_id = ? AND
    active = 1 ORDER BY name], then [fetchall()]. *)
Definition select_user_locations (user_id : Z) (d : db) : list row_dict :=
  map location_dict
      (order_by_name
         (filter (fun l => (loc_user_id l =? user_id) && loc_active l)
                 (locations d))).

Definition get_user_locations (user_id : Z) : M (list row_dict) :=
  get_db_connection ;;
  try_finally (query (select_user_locations user_id)) close.

End UserLocations.

(** ** [validate_time_entry] *)

Definition msg_start_before_end : string := "Start time must be before end time".

Section ValidateTimeEntry.

(** The text of the [ValueError] that [strptime] raises on a string. *)
Variable strptime_error : string -> string.

Definition msg_invalid_format (s : string) : string :=
  "Invalid time format: " ++ strptime_error s.

Definition validate_time_entry (start_time end_time : string) : bool * string :=
  match strptime_HM start_time with
  | Raise _ => (false, msg_invalid_format start_time)
  | Ok start =>
      match strptime_HM end_time with
      | Raise _ => (false, msg_invalid_format end_time)
      | Ok end_ =>
          if time_ge start end_ then (false, msg_start_before_end)
          else (true, EmptyString)
      end
  end.

End ValidateTimeEntry.

(** ** The save button of [main]

    [t.strftime("%H:%M")]: hour and minute, two digits each. *)
Definition digit_char (n : Z) : ascii := ascii_of_nat (Z.to_nat (48 + n)).

Definition two_digits (n : Z) : list ascii :=
  [digit_char (n / 10); digit_char (n mod 10)].

Definition strftime_HM (t : time) : string :=
  string_of_list_ascii (two_digits (hour t) ++ ":"%char :: two_digits (minute t)).

(** The call of [save_entry] under [if st.button("Save Entry")]: the four
    widget values are formatted and passed on with the selected ids. *)
Definition save_button (env : backend) (user_id : Z) (start_time end_time : time)
    (break_start break_end : option time) (selected_locations : list Z)
    : M (bool * string) :=
  let break_start_str := option_map strftime_HM break_start in
  let break_end_str := option_map strftime_HM break_end in
  save_entry env user_id (strftime_HM start_time) (strftime_HM end_time)
             break_start_str break_end_str selected_locations.

End Page.
Export Page.

(* ================================================================== *)
(** * The specification's reading of the time rules *)
(* ================================================================== *)

Module Spec.

(** A break is present when both of its fields are set. *)
Definition break_duration (break_start break_end : option time) : option Z :=
  match break_start, break_end with
  | Some bs, Some be => Some (time_to_minutes be - time_to_minutes bs)
  | _, _ => None
  end.

(** Worked minutes: the work window, minus the actual break if present. *)
Definition total_minutes (work_start : time)
    (break_start break_end : option time) (work_end : time) : Z :=
  (time_to_minutes work_end - time_to_minutes work_start)
  - match break_duration break_start break_end with
    | Some d => d
    | None => 0
    end.

(** The double nearest to [m / 60] rounded to two decimals. *)
Definition hours_of_minutes (m : Z) : float :=
  PrimFloat.div (float_of_Z (round_half_even (100 * m) 60)) (float_of_Z 100).

(** The rules of [validateTimes] in their priority order, each with the
    condition under which it is violated and the reason it reports. *)
Definition rules (work_start : time) (break_start break_end : option time)
    (work_end : time) : list (bool * string) :=
  [ (time_ge work_start work_end, msg_work_order);
    (xorb (truthy break_start) (truthy break_end), msg_both_break);
    (match break_start, break_end with
     | Some bs, Some be => time_ge bs be
     | _, _ => false
     end, msg_break_order);
    (match break_start, break_end with
     | Some bs, Some _ => time_le bs work_start
     | _, _ => false
     end, msg_break_before_work);
    (match break_start, break_end with
     | Some _, Some be => time_ge be work_end
     | _, _ => false
     end, msg_break_after_work) ].

(** The reason of the first violated rule, or success when none is. *)
Definition first_violation (rs : list (bool * string)) : bool * string :=
  match find (fun r : bool * string => fst r) rs with
  | Some r => (false, snd r)
  | None => (true, EmptyString)
  end.

End Spec.

(* ================================================================== *)
(** * Vocabulary of the properties *)
(* ================================================================== *)

Definition valid_opt (o : option time) : Prop :=
  match o with Some t => valid_time t | None => True end.

(** The totals two pairs of times of one day can give. *)
Definition minute_range : list Z :=
  map (fun i => Z.of_nat i - 2878) (seq 0 (Z.to_nat 5757)).

Definition hours_agree (m : Z) : bool :=
  PrimFloat.Leibniz.eqb (py_round2 (py_truediv m 60)) (Spec.hours_of_minutes m).

(** [quiet P m]: from every session, [m] leaves the stored database as it
    was and its result satisfies [P]. *)
Definition quiet {A : Type} (P : result A -> Prop) (m : M A) : Prop :=
  forall s r s', m s = (r, s') -> store s' = store s /\ P r.

(** [guarded P good m]: [m] either returns a value satisfying [good], or
    leaves the stored database as it was with a result satisfying [P]. *)
Definition guarded {A : Type} (P : result A -> Prop) (good : A -> Prop)
    (m : M A) : Prop :=
  forall s r s', m s = (r, s') ->
    (exists a, r = Ok a /\ good a) \/ (store s' = store s /\ P r).

Definition returns {A : Type} (r : result A) : Prop :=
  match r with
  | Ok _ => True
  | Raise _ => False
  end.

Definition raises_sqlite {A : Type} (r : result A) : Prop :=
  match r with
  | Ok _ => True
  | Raise e => is_sqlite_error e = true
  end.

(** How the transaction of [save_entry] can end without a commit. *)
Inductive txn_failure : result (bool * string) -> Prop :=
| TF_order (k : Z) : txn_failure (Ok (false, msg_order_used k))
| TF_check : txn_failure (Ok (false, msg_invalid_time_values))
| TF_raise (e : exn) : is_sqlite_error e = true -> txn_failure (Raise e).

(** How [save_entry] can fail once its location check has passed. *)
Inductive store_failure : result (bool * string) -> Prop :=
| SF_order (k : Z) : store_failure (Ok (false, msg_order_used k))
| SF_check : store_failure (Ok (false, msg_invalid_time_values))
| SF_error (e : exn) : store_failure (Ok (false, msg_db_error e)).

Definition loop_result (r : result (option (bool * string))) : Prop :=
  match r with
  | Ok None => True
  | Ok (Some v) => exists k, v = (false, msg_order_used k)
  | Raise e => is_sqlite_error e = true
  end.

Definition saved (v : bool * string) : Prop := v = (true, msg_saved).

Definition save_failure (r : result (bool * string)) : Prop :=
  r = Ok (false, msg_invalid_locations) \/ store_failure r.

(** The ids of the rows the check counts. *)
Definition matching_ids (ids : list Z) (d : db) : list Z :=
  map loc_id
      (filter (fun l => existsb (Z.eqb (loc_id l)) ids && loc_active l)
              (locations d)).

(** ** Concrete stores used as inputs *)

Module Examples.

(** A schema with nothing beyond the constraints the spec names. *)
Definition plain : backend :=
  mk_backend "2026-11-04" 1000 (fun _ _ => None) (fun _ _ => None)
             (fun _ _ => None).

(** A schema that also limits a day's route to one stop, as a CHECK
    constraint on [daily_locations.sequence_order]. *)
Definition one_stop : backend :=
  mk_backend "2026-11-04" 1000 (fun _ _ => None) (fun _ _ => None)
             (fun _ r => if 1 <? dl_sequence_order r
                         then Some (CheckC, ": sequence_order <= 1")
                         else None).

(** Locations 3 and 5, both active and owned by user 7. *)
Definition two_locations : db :=
  mk_db [mk_location 3 7 "Kitchen" None true;
         mk_location 5 7 "Garage" (Some "12 Main St.") true] [] [].

(** Location 3 belongs to user 7, location 5 to user 8. *)
Definition two_owners : db :=
  mk_db [mk_location 3 7 "Kitchen" None true;
         mk_location 5 8 "Garage" None true] [] [].

(** User 7 has an entry for today with a break and the route 5, 3. *)
Definition with_entry : db :=
  mk_db [mk_location 3 7 "Kitchen" None true;
         mk_location 5 7 "Garage" None true]
        [mk_entry 1 7 "2026-11-04" "08:00" "17:00" (Some "12:00")
                  (Some "12:45") 900]
        [mk_daily_location 1 3 2; mk_daily_location 1 5 1].

End Examples.

(** ** Vocabulary of the further properties *)

(** Every time of the day. *)
Definition all_times : list time :=
  map (fun i => mk_time (Z.of_nat i / 60) (Z.of_nat i mod 60))
      (seq 0 (Z.to_nat 1440)).

Definition time_eqb (a b : time) : bool :=
  (hour a =? hour b) && (minute a =? minute b).

(** Formatting a time the way the page does and parsing it back. *)
Definition parses_back (t : time) : bool :=
  match parse_time (strftime_HM t) with
  | Some t' => time_eqb t t'
  | None => false
  end.


(** [row[key]] on the dictionary of a row. *)
Fixpoint row_get (key : string) (r : row_dict) : option scalar :=
  match r with
  | [] => None
  | (k, v) :: rest => if String.eqb k key then Some v else row_get key rest
  end.

(** The route rows [save_entry] writes for an entry: the ids in order,
    numbered from [order]. *)
Fixpoint sequence_rows (entry_id order : Z) (ids : list Z)
    : list daily_location_row :=
  match ids with
  | [] => []
  | i :: rest =>
      mk_daily_location entry_id i order :: sequence_rows entry_id (order + 1) rest
  end.

Definition is_active_location (d : db) (i : Z) : Prop :=
  exists l, In l (locations d) /\ loc_id l = i /\ loc_active l = true.

(** The keys of the three tables. *)
Definition entry_key (e : entry_row) : Z * string := (ent_user_id e, ent_date e).
Definition position_key (r : daily_location_row) : Z * Z :=
  (dl_entry_id r, dl_sequence_order r).
Definition name_key (l : location_row) : Z * string :=
  (loc_user_id l, sql_lower (loc_name l)).

(** A store that respects its keys: row ids are unique, a user has one
    entry per date, and a position is used once per entry. *)
Record keys_ok (d : db) : Prop := mk_keys_ok
  { location_ids_ok : NoDup (map loc_id (locations d));
    entry_ids_ok : NoDup (map ent_id (daily_entries d));
    entry_keys_ok : NoDup (map entry_key (daily_entries d));
    position_keys_ok : NoDup (map position_key (daily_locations d)) }.

(** Among a user's active locations no two names differ only in case. *)
Definition names_ok (d : db) : Prop :=
  NoDup (map name_key (filter loc_active (locations d))).

(** No user has more than 100 active locations. *)
Definition within_limit (d : db) : Prop :=
  forall user_id, count_active_locations user_id d <= 100.

(** Worked hours strictly between 0 and 24. *)
Definition hours_within_day (h : float) : bool :=
  PrimFloat.ltb (float_of_Z 0) h && PrimFloat.ltb h (float_of_Z 24).

Definition worked_minutes : list Z :=
  map (fun i => Z.of_nat i + 1) (seq 0 (Z.to_nat 1439)).


(** The address [add_location] stores. *)
Definition stored_address (address : option string) : option string :=
  match address with
  | Some a => if str_truthy a then Some (sanitize_input a 100) else Some a
  | None => None
  end.

(** The row [add_location] inserts. *)
Definition new_location (d : db) (user_id : Z) (name : string)
    (address : option string) : location_row :=
  mk_location (next_id (map loc_id (locations d))) user_id
              (sanitize_input name 50) (stored_address address) true.

(** The order of [ORDER BY name] and of [ORDER BY sequence_order]. *)
Definition name_le (name_before : string -> string -> bool)
    (a b : location_row) : Prop :=
  name_before (loc_name a) (loc_name b) = true
  \/ name_before (loc_name b) (loc_name a) = false.


(** The rows of [locations] that [get_user_locations] selects. *)
Definition user_locations (user_id : Z) (d : db) : list location_row :=
  filter (fun l => (loc_user_id l =? user_id) && loc_active l) (locations d).

(** The row the upsert of [save_entry] leaves for today's entry. *)
Definition saved_entry (env : backend) (entry_id user_id : Z)
    (start_time end_time : string) (break_start break_end : option string)
    : entry_row :=
  mk_entry entry_id user_id (today env) start_time end_time
           break_start break_end (now env).

(** The update of the upsert on one row. *)
Definition upsert_row (env : backend) (user_id : Z)
    (start_time end_time : string) (break_start break_end : option string)
    (e : entry_row) : entry_row :=
  if is_todays_entry env user_id e
  then saved_entry env (ent_id e) user_id start_time end_time
                   break_start break_end
  else e.

(** The route of an entry joined with its locations, as
    [get_todays_entry] reads it back after a save. *)
Fixpoint route (ls : list location_row) (entry_id order : Z)
    : list (location_row * daily_location_row) :=
  match ls with
  | [] => []
  | l :: rest =>
      (l, mk_daily_location entry_id (loc_id l) order)
      :: route rest entry_id (order + 1)
  end.

(** The join of one route row with [locations]. *)
Definition join_location (entry_id : Z) (d : db) (dl : daily_location_row)
    : list (location_row * daily_location_row) :=
  if dl_entry_id dl =? entry_id
  then map (fun l => (l, dl))
           (filter (fun l => dl_location_id dl =? loc_id l) (locations d))
  else [].

(** The positions [first], [first + 1], ... of a route of [n] stops. *)
Fixpoint positions (first : Z) (n : nat) : list Z :=
  match n with
  | O => []
  | S m => first :: positions (first + 1) m
  end.

(** One step of evaluation of a repository function, keeping the
    queries and the messages folded. *)
Ltac run_step :=
  cbn -[sanitize_input select_location_by_name count_active_locations
        insert_location location_constraints Z.leb
        msg_exists msg_limit msg_added msg_constraint msg_db_error].

(* ================================================================== *)
(** * Properties of the time functions *)
(* ================================================================== *)

Lemma time_to_minutes_range (t : time) :
  valid_time t -> 0 <= time_to_minutes t <= 1439.
Proof. unfold valid_time, time_to_minutes. lia. Qed.

(** On times in range the field-wise comparison is the comparison of the
    minutes since midnight. *)
Lemma time_cmp_minutes (a b : time) :
  valid_time a -> valid_time b ->
  time_cmp a b = (time_to_minutes a ?= time_to_minutes b).
Proof.
  unfold valid_time, time_cmp, time_to_minutes. intros Ha Hb.
  destruct (Z.compare_spec (hour a) (hour b)) as [E | L | G].
  - rewrite E. symmetry.
    destruct (Z.compare_spec (minute a) (minute b)).
    + apply Z.compare_eq_iff. lia.
    + apply Z.compare_lt_iff. lia.
    + apply Z.compare_gt_iff. lia.
  - symmetry. apply Z.compare_lt_iff. lia.
  - symmetry. apply Z.compare_gt_iff. lia.
Qed.

Lemma time_lt_minutes (a b : time) :
  valid_time a -> valid_time b ->
  time_lt a b = true <-> time_to_minutes a < time_to_minutes b.
Proof.
  intros Ha Hb. unfold time_lt. rewrite (time_cmp_minutes a b Ha Hb).
  destruct (Z.compare_spec (time_to_minutes a) (time_to_minutes b));
    split; intros; try lia; discriminate.
Qed.

Lemma time_ge_minutes (a b : time) :
  valid_time a -> valid_time b ->
  time_ge a b = false <-> time_to_minutes a < time_to_minutes b.
Proof.
  intros Ha Hb. unfold time_ge. rewrite (time_cmp_minutes a b Ha Hb).
  destruct (Z.compare_spec (time_to_minutes a) (time_to_minutes b));
    split; intros; try lia; try discriminate; reflexivity.
Qed.

Lemma time_le_minutes (a b : time) :
  valid_time a -> valid_time b ->
  time_le a b = false <-> time_to_minutes b < time_to_minutes a.
Proof.
  intros Ha Hb. unfold time_le. rewrite (time_cmp_minutes a b Ha Hb).
  destruct (Z.compare_spec (time_to_minutes a) (time_to_minutes b));
    split; intros; try lia; try discriminate; reflexivity.
Qed.

(** [time(m // 60, m % 60)] succeeds for a minute of the day and is that
    minute. *)
Lemma py_time_of_minutes (m : Z) :
  0 <= m < 1440 ->
  exists t, py_time (m / 60) (m mod 60) = Ok t
            /\ valid_time t /\ time_to_minutes t = m.
Proof.
  intros Hm. exists (mk_time (m / 60) (m mod 60)).
  assert (Hq : 0 <= m / 60 < 24).
  { split; [apply Z.div_pos; lia | apply Z.div_lt_upper_bound; lia]. }
  assert (Hr : 0 <= m mod 60 < 60) by (apply Z.mod_pos_bound; lia).
  split; [| split].
  - unfold py_time, valid_timeb; simpl.
    replace (0 <=? m / 60) with true by (symmetry; apply Z.leb_le; lia).
    replace (m / 60 <? 24) with true by (symmetry; apply Z.ltb_lt; lia).
    replace (0 <=? m mod 60) with true by (symmetry; apply Z.leb_le; lia).
    replace (m mod 60 <? 60) with true by (symmetry; apply Z.ltb_lt; lia).
    reflexivity.
  - unfold valid_time; simpl. lia.
  - unfold time_to_minutes; simpl.
    pose proof (Z.div_mod m 60). lia.
Qed.

(** ** Rounding of the worked hours *)

Lemma hours_agree_all : forallb hours_agree minute_range = true.
Proof. vm_compute. reflexivity. Qed.

(** For every number of minutes two days can differ by, dividing by 60
    as floats and rounding to two digits gives the double nearest to the
    exact quotient rounded to two decimals. *)
Lemma round_hours_decimal (m : Z) :
  -2878 <= m <= 2878 ->
  py_round2 (py_truediv m 60) = Spec.hours_of_minutes m.
Proof.
  intros Hm.
  assert (Hin : In m minute_range).
  { unfold minute_range. apply in_map_iff.
    exists (Z.to_nat (m + 2878)). split; [cbv beta; lia |].
    apply in_seq. lia. }
  pose proof hours_agree_all as Hall.
  rewrite forallb_forall in Hall.
  apply FloatAxioms.Leibniz.eqb_spec. exact (Hall m Hin).
Qed.

(** ** [calculate_hours] *)

(** The hours and the deduction of [calculate_hours], whatever the order
    of the four times: the actual break, and only it, comes off the work
    window, and the deduction is a flag of 0 or 30. *)
Lemma calculate_hours_unfold (ws : time) (bs be : option time) (we : time) :
  calculate_hours ws bs be we =
  (py_round2 (py_truediv (Spec.total_minutes ws bs be we) 60),
   match Spec.break_duration bs be with
   | Some d => if d <=? 30 then 0 else 30
   | None => 0
   end).
Proof.
  unfold calculate_hours, Spec.total_minutes, Spec.break_duration,
    calculate_break_deduction.
  destruct bs as [b1 |], be as [b2 |]; try reflexivity;
    now rewrite Z.sub_0_r.
Qed.

(** C1.  For valid times with [workStart < workEnd], [calculate_hours]
    returns [round(total / 60, 2)] where [total] is the work window minus
    the actual break when a break is present; that float is the double
    nearest to the quotient rounded to two decimals; the deduction is 0
    without a break or with a break of at most 30 minutes and 30 with a
    longer one, and the worked minutes never depend on the deduction.
    The scenario 08:00-17:00 with a break 12:00-12:45 gives (8.25, 30). *)
Theorem calculate_hours_correct :
  (forall (ws : time) (bs be : option time) (we : time),
      valid_time ws -> valid_time we -> valid_opt bs -> valid_opt be ->
      time_lt ws we = true ->
      let total := Spec.total_minutes ws bs be we in
      fst (calculate_hours ws bs be we) = py_round2 (py_truediv total 60)
      /\ fst (calculate_hours ws bs be we) = Spec.hours_of_minutes total
      /\ (Spec.break_duration bs be = None ->
          total = time_to_minutes we - time_to_minutes ws
          /\ snd (calculate_hours ws bs be we) = 0)
      /\ (forall d, Spec.break_duration bs be = Some d ->
          total = time_to_minutes we - time_to_minutes ws - d
          /\ (d <= 30 -> snd (calculate_hours ws bs be we) = 0)
          /\ (30 < d -> snd (calculate_hours ws bs be we) = 30)))
  /\ calculate_hours (mk_time 8 0) (Some (mk_time 12 0))
       (Some (mk_time 12 45)) (mk_time 17 0) = (8.25%float, 30).
Proof.
  split; [| vm_compute; reflexivity].
  intros ws bs be we Hws Hwe Hbs Hbe Hlt total.
  rewrite calculate_hours_unfold. cbn [fst snd]. fold total.
  assert (Hrange : -2878 <= total <= 2878).
  { unfold total, Spec.total_minutes, Spec.break_duration.
    pose proof (time_to_minutes_range ws Hws).
    pose proof (time_to_minutes_range we Hwe).
    destruct bs as [b1 |], be as [b2 |]; simpl in Hbs, Hbe; try lia.
    pose proof (time_to_minutes_range b1 Hbs).
    pose proof (time_to_minutes_range b2 Hbe). lia. }
  split; [reflexivity |].
  split; [apply round_hours_decimal; exact Hrange |].
  split.
  - intros Hnone. unfold total, Spec.total_minutes. rewrite Hnone.
    split; [lia | reflexivity].
  - intros d Hd. unfold total, Spec.total_minutes. rewrite Hd.
    split; [reflexivity |]. split; intros Hcmp.
    + apply Z.leb_le in Hcmp. now rewrite Hcmp.
    + apply Z.leb_gt in Hcmp. now rewrite Hcmp.
Qed.

Lemma calculate_hours_correct_witness :
  time_lt (mk_time 9 0) (mk_time 17 30) = true
  /\ fst (calculate_hours (mk_time 9 0) (Some (mk_time 12 0))
            (Some (mk_time 12 20)) (mk_time 17 30))
     = Spec.hours_of_minutes 490
  /\ snd (calculate_hours (mk_time 9 0) (Some (mk_time 12 0))
            (Some (mk_time 12 20)) (mk_time 17 30)) = 0.
Proof.
  pose proof (proj1 calculate_hours_correct (mk_time 9 0)
                (Some (mk_time 12 0)) (Some (mk_time 12 20)) (mk_time 17 30))
    as H.
  assert (V : forall h m, 0 <= h < 24 -> 0 <= m < 60 -> valid_time (mk_time h m)).
  { intros h m Hh Hm. unfold valid_time; simpl; lia. }
  specialize (H (V 9 0 ltac:(lia) ltac:(lia)) (V 17 30 ltac:(lia) ltac:(lia))
                (V 12 0 ltac:(lia) ltac:(lia)) (V 12 20 ltac:(lia) ltac:(lia))
                eq_refl).
  destruct H as (_ & Hdec & _ & Hsome).
  split; [reflexivity |]. split; [exact Hdec |].
  destruct (Hsome 20 eq_refl) as (_ & Hle & _). apply Hle. lia.
Defined.

(** ** [validate_times] *)

(** C2.  [validate_times] reports the reason of the first violated rule in
    the order workStart >= workEnd, exactly one break field set,
    breakStart >= breakEnd, breakStart <= workStart, breakEnd >= workEnd,
    and nothing else; with no break field and workStart < workEnd it
    succeeds. *)
Theorem validate_times_first_violation :
  forall (ws : time) (bs be : option time) (we : time),
    validate_times ws bs be we
    = Spec.first_violation (Spec.rules ws bs be we)
    /\ (time_lt ws we = true ->
        validate_times ws None None we = (true, EmptyString)).
Proof.
  intros ws bs be we. split.
  - unfold validate_times, Spec.first_violation, Spec.rules.
    cbn [find fst snd].
    destruct (time_ge ws we); [reflexivity |].
    destruct bs as [b1 |], be as [b2 |]; cbn; try reflexivity.
    destruct (time_ge b1 b2); [reflexivity |].
    destruct (time_le b1 ws); [reflexivity |].
    destruct (time_ge b2 we); reflexivity.
  - unfold validate_times, time_lt, time_ge.
    destruct (time_cmp ws we); intros H; try discriminate H. reflexivity.
Qed.

Lemma validate_times_first_violation_witness :
  validate_times (mk_time 8 0) (Some (mk_time 7 0)) (Some (mk_time 18 0))
    (mk_time 17 0) = (false, msg_break_before_work)
  /\ validate_times (mk_time 8 0) None None (mk_time 17 0) = (true, EmptyString).
Proof.
  split.
  - rewrite (proj1 (validate_times_first_violation (mk_time 8 0)
                      (Some (mk_time 7 0)) (Some (mk_time 18 0)) (mk_time 17 0))).
    reflexivity.
  - apply (proj2 (validate_times_first_violation (mk_time 8 0) None None
                    (mk_time 17 0))).
    reflexivity.
Defined.

(** ** [calculate_break_time] *)

(** The suggestion for a work window of at least six hours. *)
Lemma calculate_break_time_window (ws we : time) :
  valid_time ws -> valid_time we ->
  360 <= time_to_minutes we - time_to_minutes ws ->
  exists bs be,
    calculate_break_time ws we = Ok (Some bs, Some be)
    /\ valid_time bs /\ valid_time be
    /\ time_to_minutes bs
       = time_to_minutes ws
         + (time_to_minutes we - time_to_minutes ws) / 2 - 30
    /\ time_to_minutes be
       = time_to_minutes ws
         + (time_to_minutes we - time_to_minutes ws) / 2 + 30.
Proof.
  intros Hws Hwe Hlong.
  pose proof (time_to_minutes_range ws Hws) as Rs.
  pose proof (time_to_minutes_range we Hwe) as Re.
  unfold calculate_break_time. fold (time_to_minutes ws) (time_to_minutes we).
  set (total := time_to_minutes we - time_to_minutes ws) in *.
  assert (Hhalf : 180 <= total / 2 /\ 2 * (total / 2) <= total).
  { split; [apply Z.div_le_lower_bound; lia |].
    apply Z.mul_div_le; lia. }
  replace (total <? 360) with false by (symmetry; apply Z.ltb_ge; lia).
  destruct (py_time_of_minutes (time_to_minutes ws + total / 2 - 30))
    as (bs & Ebs & Vbs & Mbs); [lia |].
  destruct (py_time_of_minutes (time_to_minutes ws + total / 2 + 30))
    as (be & Ebe & Vbe & Mbe); [lia |].
  exists bs, be. rewrite Ebs, Ebe. repeat split; try assumption;
    try apply Vbs; try apply Vbe.
Qed.

(** C8.  For every pair of times, [calculate_break_time] returns
    [(None, None)] when the window is shorter than 360 minutes, and
    otherwise a break of exactly 60 minutes around the midpoint
    [workStart + total // 2]: from 30 minutes before it to 30 after. *)
Theorem calculate_break_time_spec :
  forall ws we : time,
    valid_time ws -> valid_time we ->
    let total := time_to_minutes we - time_to_minutes ws in
    let mid := time_to_minutes ws + total / 2 in
    (total < 360 -> calculate_break_time ws we = Ok (None, None))
    /\ (360 <= total ->
        exists bs be,
          calculate_break_time ws we = Ok (Some bs, Some be)
          /\ time_to_minutes bs = mid - 30
          /\ time_to_minutes be = mid + 30
          /\ time_to_minutes be - time_to_minutes bs = 60).
Proof.
  intros ws we Hws Hwe total mid. split.
  - intros Hshort. unfold calculate_break_time.
    fold (time_to_minutes ws) (time_to_minutes we). fold total.
    replace (total <? 360) with true by (symmetry; apply Z.ltb_lt; lia).
    reflexivity.
  - intros Hlong.
    destruct (calculate_break_time_window ws we Hws Hwe Hlong)
      as (bs & be & E & _ & _ & Mbs & Mbe).
    exists bs, be. fold total in Mbs, Mbe. fold mid in Mbs, Mbe.
    repeat split; try assumption. lia.
Qed.

Lemma calculate_break_time_spec_witness :
  calculate_break_time (mk_time 8 0) (mk_time 13 59) = Ok (None, None)
  /\ exists bs be,
       calculate_break_time (mk_time 8 0) (mk_time 17 1) = Ok (Some bs, Some be)
       /\ time_to_minutes bs = 720 /\ time_to_minutes be = 780
       /\ time_to_minutes be - time_to_minutes bs = 60.
Proof.
  assert (V : forall h m, 0 <= h < 24 -> 0 <= m < 60 -> valid_time (mk_time h m)).
  { intros h m Hh Hm. unfold valid_time; simpl; lia. }
  split.
  - apply (calculate_break_time_spec (mk_time 8 0) (mk_time 13 59)
             (V 8 0 ltac:(lia) ltac:(lia)) (V 13 59 ltac:(lia) ltac:(lia))).
    vm_compute. reflexivity.
  - apply (calculate_break_time_spec (mk_time 8 0) (mk_time 17 1)
             (V 8 0 ltac:(lia) ltac:(lia)) (V 17 1 ltac:(lia) ltac:(lia))).
    vm_compute. discriminate.
Defined.

(** C10.  For a work window of at least 360 minutes the suggested break
    passes [validate_times]: it starts strictly after the work start, ends
    strictly after it starts, and ends strictly before the work end. *)
Theorem suggested_break_is_valid :
  forall ws we : time,
    valid_time ws -> valid_time we ->
    time_lt ws we = true ->
    360 <= time_to_minutes we - time_to_minutes ws ->
    exists bs be,
      calculate_break_time ws we = Ok (Some bs, Some be)
      /\ validate_times ws (Some bs) (Some be) we = (true, EmptyString)
      /\ time_lt ws bs = true /\ time_lt bs be = true /\ time_lt be we = true.
Proof.
  intros ws we Hws Hwe Hlt Hlong.
  destruct (calculate_break_time_window ws we Hws Hwe Hlong)
    as (bs & be & E & Vbs & Vbe & Mbs & Mbe).
  pose proof (time_to_minutes_range ws Hws) as Rs.
  pose proof (time_to_minutes_range we Hwe) as Re.
  set (total := time_to_minutes we - time_to_minutes ws) in *.
  assert (Hhalf : 180 <= total / 2 /\ 2 * (total / 2) <= total).
  { split; [apply Z.div_le_lower_bound; lia |].
    apply Z.mul_div_le; lia. }
  assert (L1 : time_to_minutes ws < time_to_minutes bs) by lia.
  assert (L2 : time_to_minutes bs < time_to_minutes be) by lia.
  assert (L3 : time_to_minutes be < time_to_minutes we) by lia.
  exists bs, be. split; [exact E |].
  split.
  - unfold validate_times.
    replace (time_ge ws we) with false
      by (symmetry; apply time_ge_minutes; try assumption; lia).
    cbn [truthy negb andb Bool.eqb].
    replace (time_ge bs be) with false
      by (symmetry; apply time_ge_minutes; assumption).
    replace (time_le bs ws) with false
      by (symmetry; apply time_le_minutes; assumption).
    replace (time_ge be we) with false
      by (symmetry; apply time_ge_minutes; assumption).
    reflexivity.
  - repeat split; apply time_lt_minutes; assumption.
Qed.

Lemma suggested_break_is_valid_witness :
  exists bs be,
    calculate_break_time (mk_time 8 0) (mk_time 17 0) = Ok (Some bs, Some be)
    /\ validate_times (mk_time 8 0) (Some bs) (Some be) (mk_time 17 0)
       = (true, EmptyString)
    /\ time_lt (mk_time 8 0) bs = true /\ time_lt bs be = true
    /\ time_lt be (mk_time 17 0) = true.
Proof.
  apply (suggested_break_is_valid (mk_time 8 0) (mk_time 17 0)).
  - unfold valid_time; simpl; lia.
  - unfold valid_time; simpl; lia.
  - reflexivity.
  - vm_compute. discriminate.
Defined.

(* ================================================================== *)
(** * Reasoning about the repository functions *)
(* ================================================================== *)

Section StoreRules.

Context {A B : Type}.

Lemma quiet_ret (P : result A -> Prop) (a : A) :
  P (Ok a) -> quiet P (ret a).
Proof. intros H s r s' E. inversion E; subst. auto. Qed.

Lemma quiet_raise (P : result A -> Prop) (e : exn) :
  P (Raise e) -> quiet P (raise e).
Proof. intros H s r s' E. inversion E; subst. auto. Qed.

Lemma quiet_weaken (P Q : result A -> Prop) (m : M A) :
  quiet P m -> (forall r, P r -> Q r) -> quiet Q m.
Proof. intros H HPQ s r s' E. destruct (H s r s' E). auto. Qed.

Lemma quiet_bind (P : result A -> Prop) (Q : result B -> Prop)
    (m : M A) (k : A -> M B) :
  quiet P m ->
  (forall a, P (Ok a) -> quiet Q (k a)) ->
  (forall e, P (Raise e) -> Q (Raise e)) ->
  quiet Q (bind m k).
Proof.
  intros Hm Hk He s r s' E. unfold bind in E.
  destruct (m s) as [[a | e] s1] eqn:Em.
  - destruct (Hm s _ _ Em) as [S1 Pa].
    destruct (Hk a Pa s1 r s' E) as [S2 Qr]. split; [congruence | exact Qr].
  - inversion E; subst. destruct (Hm s _ _ Em) as [S1 Pe]. auto.
Qed.

Lemma quiet_try_except (P Q : result A -> Prop) (body : M A)
    (handler : exn -> option (M A)) :
  quiet P body ->
  (forall a, P (Ok a) -> Q (Ok a)) ->
  (forall e, P (Raise e) ->
     match handler e with
     | Some h => quiet Q h
     | None => Q (Raise e)
     end) ->
  quiet Q (try_except body handler).
Proof.
  intros Hb Hok Hex s r s' E. unfold try_except in E.
  destruct (body s) as [[a | e] s1] eqn:Eb.
  - inversion E; subst. destruct (Hb s _ _ Eb). auto.
  - destruct (Hb s _ _ Eb) as [S1 Pe]. specialize (Hex e Pe).
    destruct (handler e) as [h |].
    + destruct (Hex s1 r s' E). split; [congruence | assumption].
    + inversion E; subst. auto.
Qed.

Lemma guarded_of_quiet (P : result A -> Prop) (good : A -> Prop) (m : M A) :
  quiet P m -> guarded P good m.
Proof. intros H s r s' E. right. exact (H s r s' E). Qed.

Lemma guarded_bind (P : result A -> Prop) (Q : result B -> Prop)
    (good : B -> Prop) (m : M A) (k : A -> M B) :
  quiet P m ->
  (forall a, P (Ok a) -> guarded Q good (k a)) ->
  (forall e, P (Raise e) -> Q (Raise e)) ->
  guarded Q good (bind m k).
Proof.
  intros Hm Hk He s r s' E. unfold bind in E.
  destruct (m s) as [[a | e] s1] eqn:Em.
  - destruct (Hm s _ _ Em) as [S1 Pa].
    destruct (Hk a Pa s1 r s' E) as [G | [S2 Qr]]; [left; exact G |].
    right. split; [congruence | exact Qr].
  - inversion E; subst. destruct (Hm s _ _ Em) as [S1 Pe]. right. auto.
Qed.

Lemma guarded_try_except (P Q : result A -> Prop) (good : A -> Prop)
    (body : M A) (handler : exn -> option (M A)) :
  guarded P good body ->
  (forall a, P (Ok a) -> Q (Ok a)) ->
  (forall e, P (Raise e) ->
     match handler e with
     | Some h => quiet Q h
     | None => Q (Raise e)
     end) ->
  guarded Q good (try_except body handler).
Proof.
  intros Hb Hok Hex s r s' E. unfold try_except in E.
  destruct (body s) as [[a | e] s1] eqn:Eb.
  - inversion E; subst.
    destruct (Hb s _ _ Eb) as [G | [S1 Pa]]; [left; exact G | right; auto].
  - destruct (Hb s _ _ Eb) as [(a & Ea & _) | [S1 Pe]]; [discriminate Ea |].
    specialize (Hex e Pe). destruct (handler e) as [h |].
    + destruct (Hex s1 r s' E). right. split; [congruence | assumption].
    + inversion E; subst. right. auto.
Qed.

(** [finally: conn.close()] keeps what the body decided. *)
Lemma guarded_finally_close (P : result A -> Prop) (good : A -> Prop)
    (body : M A) :
  guarded P good body -> guarded P good (try_finally body close).
Proof.
  intros Hb s r s' E. unfold try_finally, close in E.
  destruct (body s) as [r1 s1] eqn:Eb. inversion E; subst. simpl.
  exact (Hb s _ _ Eb).
Qed.

Lemma quiet_finally_close (P : result A -> Prop) (body : M A) :
  quiet P body -> quiet P (try_finally body close).
Proof.
  intros Hb s r s' E. unfold try_finally, close in E.
  destruct (body s) as [r1 s1] eqn:Eb. inversion E; subst. simpl.
  exact (Hb s _ _ Eb).
Qed.

Lemma quiet_query (q : db -> A) : quiet returns (query q).
Proof. intros s r s' E. inversion E; subst. split; [reflexivity | exact I]. Qed.

(** A statement that changes rows touches the working copy only. *)
Lemma quiet_write (ev : event) (f : db -> result (A * db)) (P : result A -> Prop) :
  (forall d a d', f d = Ok (a, d') -> P (Ok a)) ->
  (forall d e, f d = Raise e -> P (Raise e)) ->
  quiet P (write ev f).
Proof.
  intros Hok Hex s r s' E. unfold write in E.
  destruct (f (view s)) as [[a d'] | e] eqn:Ef; inversion E; subst; simpl;
    split; eauto.
Qed.

End StoreRules.

Lemma quiet_connect : quiet returns get_db_connection.
Proof. intros s r s' E. inversion E; subst. split; [reflexivity | exact I]. Qed.

Lemma quiet_begin : quiet raises_sqlite begin_transaction.
Proof.
  intros s r s' E. unfold begin_transaction in E.
  destruct (txn s); inversion E; subst; simpl; split; auto.
Qed.

Lemma quiet_rollback : quiet returns rollback.
Proof. intros s r s' E. inversion E; subst. split; [reflexivity | exact I]. Qed.

(** The only step that changes the stored database is a commit. *)
Lemma guarded_commit_ret {A : Type} (P : result A -> Prop) (good : A -> Prop)
    (a : A) :
  good a -> guarded P good (bind commit (fun _ => ret a)).
Proof. intros H s r s' E. inversion E; subst. left. eauto. Qed.

Lemma violated_raises {A : Type} (c : option (constraint_kind * string))
    (otherwise : result A) (e : exn) :
  violated c otherwise = Raise e ->
  is_sqlite_error e = true \/ otherwise = Raise e.
Proof.
  unfold violated. destruct c as [[k d] |]; intros H.
  - inversion H; subst. left. reflexivity.
  - right. exact H.
Qed.

(** ** Outcomes of [save_entry] *)

Section SaveEntryOutcomes.

Variable env : backend.

Lemma upsert_entry_raises uid st en bs be d e :
  upsert_entry env uid st en bs be d = Raise e -> is_sqlite_error e = true.
Proof.
  unfold upsert_entry.
  destruct (find (is_todays_entry env uid) (daily_entries d)); intros H;
    apply violated_raises in H; destruct H as [H | H]; auto; discriminate H.
Qed.

Lemma insert_daily_location_raises eid lid order d e :
  insert_daily_location env eid lid order d = Raise e ->
  is_sqlite_error e = true.
Proof.
  unfold insert_daily_location. intros H.
  apply violated_raises in H. destruct H as [H | H]; auto.
  destruct (existsb _ _); inversion H; reflexivity.
Qed.

Lemma insert_locations_quiet (ids : list Z) :
  forall eid order, quiet loop_result (insert_locations env eid order ids).
Proof.
  induction ids as [| lid rest IH]; intros eid order; cbn [insert_locations].
  - apply quiet_ret. exact I.
  - apply quiet_bind with (P := loop_result).
    + apply quiet_try_except with (P := fun r =>
        match r with Ok v => v = None | Raise e => is_sqlite_error e = true end).
      * apply quiet_bind with (P := raises_sqlite).
        -- apply quiet_write; intros; simpl; auto.
           eapply insert_daily_location_raises; eassumption.
        -- intros _ _. apply quiet_ret. reflexivity.
        -- intros e He. exact He.
      * intros a Ha. subst a. exact I.
      * intros e He. destruct e as [| | k d |]; try exact He.
        destruct k; try exact He.
        apply quiet_ret. simpl. eauto.
    + intros [v |] Hv.
      * apply quiet_ret. exact Hv.
      * apply IH.
    + intros e He. exact He.
Qed.

Lemma save_entry_transaction_guarded uid st en bs be ids :
  guarded txn_failure saved (save_entry_transaction env uid st en bs be ids).
Proof.
  unfold save_entry_transaction.
  apply guarded_try_except with (P := txn_failure).
  - apply guarded_bind with (P := raises_sqlite).
    + apply quiet_write; intros; simpl; auto.
      eapply upsert_entry_raises; eassumption.
    + intros entry_id _.
      apply guarded_bind with (P := raises_sqlite).
      * apply quiet_write; intros; simpl; auto.
        unfold delete_entry_locations in *. discriminate.
      * intros _ _.
        apply guarded_bind with (P := loop_result).
        -- apply insert_locations_quiet.
        -- intros [v |] Hv.
           ++ apply guarded_of_quiet. apply quiet_ret.
              destruct Hv as [k ->]. constructor.
           ++ apply guarded_commit_ret. reflexivity.
        -- intros e He. constructor. exact He.
      * intros e He. constructor. exact He.
    + intros e He. constructor. exact He.
  - intros a Ha. exact Ha.
  - intros e He. destruct e as [| | k d |]; try exact He.
    destruct k; try exact He.
    apply quiet_ret. constructor.
Qed.

(** From the [BEGIN] on, [save_entry] commits and reports success, or
    leaves the stored database as it found it. *)
Lemma save_entry_after_check_guarded uid st en bs be ids :
  guarded store_failure saved
    (try_finally
       (try_except
          (bind begin_transaction
             (fun _ => save_entry_transaction env uid st en bs be ids))
          (fun e =>
             if is_sqlite_error e
             then Some (bind rollback (fun _ => ret (false, msg_db_error e)))
             else None))
       close).
Proof.
  apply guarded_finally_close.
  apply guarded_try_except with (P := txn_failure).
  - apply guarded_bind with (P := raises_sqlite).
    + apply quiet_begin.
    + intros _ _. apply save_entry_transaction_guarded.
    + intros e He. constructor. exact He.
  - intros a Ha. inversion Ha; constructor.
  - intros e He. inversion He as [| | e' Hs]; subst. rewrite Hs.
    apply quiet_bind with (P := returns).
    + apply quiet_rollback.
    + intros _ _. apply quiet_ret. constructor.
    + intros e' [].
Qed.

(** The two ways [save_entry_connected] goes on after its query. *)
Lemma save_entry_connected_unfold uid st en bs be ids s :
  save_entry_connected env uid st en bs be ids s =
  if negb (count_active_in ids (view s) =? Z.of_nat (List.length ids))
  then (Ok (false, msg_invalid_locations),
        mk_session (store s) None (trace s ++ [EvSelect] ++ [EvClose]))
  else
    try_finally
      (try_except
         (bind begin_transaction
            (fun _ => save_entry_transaction env uid st en bs be ids))
         (fun e =>
            if is_sqlite_error e
            then Some (bind rollback (fun _ => ret (false, msg_db_error e)))
            else None))
      close (log EvSelect s).
Proof.
  unfold save_entry_connected, try_finally, try_except.
  unfold bind at 1. unfold query at 1.
  destruct (negb (count_active_in ids (view s) =? Z.of_nat (List.length ids))).
  - simpl. rewrite <- app_assoc. reflexivity.
  - reflexivity.
Qed.

Lemma save_entry_connected_guarded uid st en bs be ids :
  guarded save_failure saved (save_entry_connected env uid st en bs be ids).
Proof.
  intros s r s' E. rewrite save_entry_connected_unfold in E.
  destruct (negb _).
  - inversion E; subst. right. split; [reflexivity | left; reflexivity].
  - destruct (save_entry_after_check_guarded uid st en bs be ids _ _ _ E)
      as [G | [S1 F]]; [left; exact G |].
    right. split; [exact S1 | right; exact F].
Qed.

End SaveEntryOutcomes.

(** ** [save_entry]: failures leave the store alone *)

Lemma save_entry_guarded env uid st en bs be ids :
  guarded (fun _ => True) saved (save_entry env uid st en bs be ids).
Proof.
  intros s r s' E. unfold save_entry, bind in E.
  destruct (validate_times_call _ _ _ _) as [[is_valid error] | e].
  - destruct is_valid; simpl in E.
    + destruct ids as [| i rest].
      * inversion E; subst. right. auto.
      * unfold get_db_connection in E.
        destruct (save_entry_connected_guarded env uid st en bs be (i :: rest)
                    _ _ _ E) as [G | [S1 _]]; [left; exact G |].
        right. split; [exact S1 | exact I].
    + inversion E; subst. right. auto.
  - inversion E; subst. right. auto.
Qed.

(** C3.  Whenever [save_entry] does not report success (it returns
    [False] with a reason, for a time validation failure, an empty or
    invalid location list or a constraint violation inside the
    transaction, or it raises), the stored database after the call is the
    stored database before it. *)
Theorem save_entry_failure_leaves_store :
  forall (env : backend) (uid : Z) (st en : string) (bs be : option string)
         (ids : list Z) (d d' : db) (r : result (bool * string))
         (tr : list event),
    run (save_entry env uid st en bs be ids) d = (r, d', tr) ->
    (forall msg, r <> Ok (true, msg)) ->
    d' = d.
Proof.
  intros env uid st en bs be ids d d' r tr Hrun Hfail.
  unfold run in Hrun.
  destruct (save_entry env uid st en bs be ids (mk_session d None []))
    as [r1 s1] eqn:E.
  inversion Hrun; subst.
  destruct (save_entry_guarded env uid st en bs be ids _ _ _ E)
    as [(a & Ea & Ha) | [S1 _]].
  - exfalso. unfold saved in Ha. subst. exact (Hfail msg_saved eq_refl).
  - exact S1.
Qed.

Lemma save_entry_failure_leaves_store_witness :
  run (save_entry Examples.one_stop 7 "08:00" "17:00" None None [3; 5])
      Examples.with_entry
  = (Ok (false, msg_invalid_time_values), Examples.with_entry,
     [EvConnect; EvSelect; EvBegin; EvUpsert; EvDelete; EvInsert; EvInsert;
      EvClose]).
Proof.
  pose (out := run (save_entry Examples.one_stop 7 "08:00" "17:00" None None
                      [3; 5]) Examples.with_entry).
  assert (E : out = (Ok (false, msg_invalid_time_values),
                     snd (fst out),
                     [EvConnect; EvSelect; EvBegin; EvUpsert; EvDelete;
                      EvInsert; EvInsert; EvClose]))
    by (vm_compute; reflexivity).
  fold out. rewrite E.
  rewrite (save_entry_failure_leaves_store _ _ _ _ _ _ _ _ _ _ _ E).
  - reflexivity.
  - intros msg H. discriminate H.
Defined.

(** ** [save_entry] with an empty location list *)

(** C7 as stated fails: with an empty location list and a work start that
    is not before the work end, the call fails with the time reason, not
    with the empty-locations reason. *)
Lemma save_entry_empty_not_always_empty_locations :
  fst (fst (run (save_entry Examples.plain 7 "17:00" "08:00" None None [])
                Examples.with_entry))
  = Ok (false, msg_work_order)
  /\ fst (fst (run (save_entry Examples.plain 7 "17:00" "08:00" None None [])
                   Examples.with_entry))
     <> Ok (false, msg_no_location).
Proof. split; [vm_compute; reflexivity | vm_compute; discriminate]. Qed.

(** C7, amended.  With an empty location list [save_entry] never opens a
    connection and leaves the stored database, and so any entry for
    today, as it was; when the time arguments pass [validate_times] it
    fails with the empty-locations reason. *)
Theorem save_entry_empty_locations :
  forall (env : backend) (uid : Z) (st en : string) (bs be : option string)
         (d : db),
    snd (run (save_entry env uid st en bs be []) d) = []
    /\ snd (fst (run (save_entry env uid st en bs be []) d)) = d
    /\ (forall msg,
          validate_times_call (parse_time st) (parse_optional bs)
            (parse_optional be) (parse_time en) = Ok (true, msg) ->
          fst (fst (run (save_entry env uid st en bs be []) d))
          = Ok (false, msg_no_location)).
Proof.
  intros env uid st en bs be d. unfold run, save_entry, bind.
  destruct (validate_times_call _ _ _ _) as [[is_valid error] | e].
  - destruct is_valid; simpl; repeat split; auto.
    intros msg H. discriminate H.
  - simpl. repeat split; auto. intros msg H. discriminate H.
Qed.

Lemma save_entry_empty_locations_witness :
  fst (fst (run (save_entry Examples.plain 7 "08:00" "17:00" (Some "12:00")
                   (Some "12:45") []) Examples.with_entry))
  = Ok (false, msg_no_location)
  /\ snd (fst (run (save_entry Examples.plain 7 "08:00" "17:00" (Some "12:00")
                      (Some "12:45") []) Examples.with_entry))
     = Examples.with_entry.
Proof.
  destruct (save_entry_empty_locations Examples.plain 7 "08:00" "17:00"
              (Some "12:00") (Some "12:45") Examples.with_entry)
    as (_ & Hstore & Hmsg).
  split; [| exact Hstore].
  apply (Hmsg EmptyString). vm_compute. reflexivity.
Defined.

(** ** The location check of [save_entry] *)

Lemma count_active_in_matching (ids : list Z) (d : db) :
  count_active_in ids d = Z.of_nat (List.length (matching_ids ids d)).
Proof. unfold count_active_in, matching_ids. now rewrite length_map. Qed.

Lemma matching_ids_NoDup (ids : list Z) (d : db) :
  NoDup (map loc_id (locations d)) -> NoDup (matching_ids ids d).
Proof.
  unfold matching_ids. generalize (locations d) as rows.
  induction rows as [| row rows IH]; cbn [map filter]; intros Hkey.
  - constructor.
  - apply NoDup_cons_iff in Hkey. destruct Hkey as [Hfresh Hrest].
    destruct (existsb (Z.eqb (loc_id row)) ids && loc_active row);
      cbn [map]; [| auto].
    apply NoDup_cons_iff. split; [| auto].
    intros Hin. apply Hfresh. apply in_map_iff in Hin.
    destruct Hin as (other & Hsame & Hother).
    apply filter_In in Hother. apply in_map_iff. exists other. tauto.
Qed.

Lemma matching_ids_incl (ids : list Z) (d : db) :
  incl (matching_ids ids d) ids.
Proof.
  intros i Hi. unfold matching_ids in Hi. apply in_map_iff in Hi.
  destruct Hi as (l & Hl & Hin). apply filter_In in Hin.
  destruct Hin as [_ Hp]. apply andb_true_iff in Hp. destruct Hp as [Hex _].
  apply existsb_exists in Hex. destruct Hex as (j & Hj & Heq).
  apply Z.eqb_eq in Heq. congruence.
Qed.

(** With location ids a key of [locations], the count reaches the length
    of the list only for a list without repetition. *)
Lemma count_full_NoDup (ids : list Z) (d : db) :
  NoDup (map loc_id (locations d)) ->
  count_active_in ids d = Z.of_nat (List.length ids) ->
  NoDup ids.
Proof.
  intros Hkey Hcount. rewrite count_active_in_matching in Hcount.
  apply Nat2Z.inj in Hcount.
  apply NoDup_incl_NoDup with (l := matching_ids ids d).
  - apply matching_ids_NoDup. exact Hkey.
  - rewrite Hcount. apply Nat.le_refl.
  - apply matching_ids_incl.
Qed.

(** The check looks at [id] and [active] only: every list of distinct ids
    of active locations passes, whoever owns them. *)
Lemma count_all_active (ids : list Z) (d : db) :
  NoDup (map loc_id (locations d)) ->
  NoDup ids ->
  (forall i, In i ids ->
     exists l, In l (locations d) /\ loc_id l = i /\ loc_active l = true) ->
  count_active_in ids d = Z.of_nat (List.length ids).
Proof.
  intros Hkey Hids Hactive. rewrite count_active_in_matching. f_equal.
  apply Nat.le_antisymm.
  - apply NoDup_incl_length; [| apply matching_ids_incl].
    apply matching_ids_NoDup. exact Hkey.
  - apply NoDup_incl_length; [exact Hids |].
    intros i Hi. destruct (Hactive i Hi) as (l & Hl & Hid & Hact).
    unfold matching_ids. apply in_map_iff. exists l. split; [exact Hid |].
    apply filter_In. split; [exact Hl |].
    rewrite Hact, andb_true_r. apply existsb_exists.
    exists i. split; [exact Hi |]. apply Z.eqb_eq. exact Hid.
Qed.

(** C4 as stated fails: for [[3; 5; 3]] over the active locations 3 and 5
    the call fails at the location check, with the invalid-locations
    reason; no transaction is begun and no sequence-position collision is
    reported. *)
Lemma save_entry_duplicate_not_position_collision :
  run (save_entry Examples.plain 7 "08:00" "17:00" None None [3; 5; 3])
      Examples.two_locations
  = (Ok (false, msg_invalid_locations), Examples.two_locations,
     [EvConnect; EvSelect; EvClose])
  /\ forall k,
       fst (fst (run (save_entry Examples.plain 7 "08:00" "17:00" None None
                        [3; 5; 3]) Examples.two_locations))
       <> Ok (false, msg_order_used k).
Proof.
  assert (E : run (save_entry Examples.plain 7 "08:00" "17:00" None None
                     [3; 5; 3]) Examples.two_locations
              = (Ok (false, msg_invalid_locations), Examples.two_locations,
                 [EvConnect; EvSelect; EvClose]))
    by (vm_compute; reflexivity).
  split; [exact E |].
  intros k. rewrite E. cbn [fst]. unfold msg_order_used, msg_invalid_locations.
  simpl. intros H. discriminate H.
Qed.

(** C4, amended.  With location ids a key of [locations] and time
    arguments that pass validation, a location list with a repeated id
    makes [save_entry] fail at its location check, with the
    invalid-locations reason: the count of matching active rows is below
    the length of the list.  The transaction is never begun, the stored
    database is unchanged, and the repetition is not collapsed. *)
Theorem save_entry_duplicate_ids_rejected :
  forall (env : backend) (uid : Z) (st en : string) (bs be : option string)
         (ids : list Z) (d : db) (msg : string),
    NoDup (map loc_id (locations d)) ->
    validate_times_call (parse_time st) (parse_optional bs)
      (parse_optional be) (parse_time en) = Ok (true, msg) ->
    ~ NoDup ids ->
    run (save_entry env uid st en bs be ids) d
    = (Ok (false, msg_invalid_locations), d, [EvConnect; EvSelect; EvClose]).
Proof.
  intros env uid st en bs be ids d msg Hkey Hvalid Hdup.
  unfold run, save_entry, bind. rewrite Hvalid. simpl.
  destruct ids as [| i rest]; [exfalso; apply Hdup; constructor |].
  unfold get_db_connection. rewrite save_entry_connected_unfold.
  cbn [view txn store trace].
  destruct (count_active_in (i :: rest) d =? Z.of_nat (List.length (i :: rest)))
    eqn:Hcount.
  - exfalso. apply Hdup. apply Z.eqb_eq in Hcount.
    exact (count_full_NoDup _ _ Hkey Hcount).
  - reflexivity.
Qed.

Lemma save_entry_duplicate_ids_rejected_witness :
  run (save_entry Examples.plain 7 "08:00" "17:00" None None [3; 5; 3])
      Examples.with_entry
  = (Ok (false, msg_invalid_locations), Examples.with_entry,
     [EvConnect; EvSelect; EvClose]).
Proof.
  apply (save_entry_duplicate_ids_rejected Examples.plain 7 "08:00" "17:00"
           None None [3; 5; 3] Examples.with_entry EmptyString).
  - simpl. repeat constructor; simpl; intuition discriminate.
  - vm_compute. reflexivity.
  - intros H. inversion H as [| x l Hnotin _]; subst.
    apply Hnotin. simpl. auto.
Defined.

Lemma validate_times_reason (ws : time) (bs be : option time) (we : time) :
  snd (validate_times ws bs be we) <> msg_invalid_locations.
Proof.
  unfold validate_times.
  destruct (time_ge ws we); [discriminate |].
  destruct bs as [b1 |], be as [b2 |]; cbn; try discriminate.
  destruct (time_ge b1 b2); [discriminate |].
  destruct (time_le b1 ws); [discriminate |].
  destruct (time_ge b2 we); discriminate.
Qed.

Lemma store_failure_not_invalid (r : result (bool * string)) :
  store_failure r -> r <> Ok (false, msg_invalid_locations).
Proof.
  intros F H. destruct F; inversion H.
Qed.

(** C9.  The location check of [save_entry] never looks at the owner: for
    every caller, a list of distinct ids that each name an active row of
    [locations], whoever its [user_id] is, has a full count, so the save
    does not fail with the invalid-locations reason. *)
Theorem save_entry_location_check_ignores_owner :
  forall (env : backend) (uid : Z) (st en : string) (bs be : option string)
         (ids : list Z) (d : db),
    NoDup (map loc_id (locations d)) ->
    NoDup ids ->
    (forall i, In i ids ->
       exists l owner, In l (locations d) /\ loc_id l = i
                       /\ loc_user_id l = owner /\ loc_active l = true) ->
    count_active_in ids d = Z.of_nat (List.length ids)
    /\ fst (fst (run (save_entry env uid st en bs be ids) d))
       <> Ok (false, msg_invalid_locations).
Proof.
  intros env uid st en bs be ids d Hkey Hids Hactive.
  assert (Hcount : count_active_in ids d = Z.of_nat (List.length ids)).
  { apply count_all_active; auto.
    intros i Hi. destruct (Hactive i Hi) as (l & owner & H1 & H2 & _ & H3).
    eauto. }
  split; [exact Hcount |].
  unfold run, save_entry, bind.
  unfold validate_times_call.
  destruct (parse_time st) as [ws |]; [| simpl; discriminate].
  destruct (parse_time en) as [we |]; [| simpl; discriminate].
  pose proof (validate_times_reason ws (parse_optional bs) (parse_optional be) we)
    as Hreason.
  destruct (validate_times ws (parse_optional bs) (parse_optional be) we)
    as [is_valid error].
  destruct is_valid; simpl.
  - destruct ids as [| i rest]; [simpl; discriminate |].
    unfold get_db_connection. rewrite save_entry_connected_unfold.
    cbn [view txn store trace]. rewrite Hcount, Z.eqb_refl. cbn [negb].
    match goal with
    | |- context [try_finally ?b ?c ?s] =>
        destruct (try_finally b c s) as [r s'] eqn:E
    end.
    destruct (save_entry_after_check_guarded env uid st en bs be (i :: rest)
                _ _ _ E) as [(a & Ea & Ha) | [_ F]].
    + unfold saved in Ha. subst. simpl. discriminate.
    + simpl. apply store_failure_not_invalid. exact F.
  - simpl in Hreason. simpl. intros H. apply Hreason. congruence.
Qed.

Lemma save_entry_location_check_ignores_owner_witness :
  count_active_in [5] Examples.two_owners = 1
  /\ fst (fst (run (save_entry Examples.plain 7 "08:00" "17:00" None None [5])
                   Examples.two_owners))
     <> Ok (false, msg_invalid_locations).
Proof.
  apply (save_entry_location_check_ignores_owner Examples.plain 7 "08:00"
           "17:00" None None [5] Examples.two_owners).
  - simpl. repeat constructor; simpl; intuition discriminate.
  - repeat constructor. simpl. tauto.
  - intros i [Hi | []]. subst i.
    exists (mk_location 5 8 "Garage" None true), 8. simpl. tauto.
Defined.

(** User 7 saves a route through location 5, which user 8 owns. *)
Example save_entry_cites_foreign_location :
  run (save_entry Examples.plain 7 "08:00" "17:00" None None [5])
      Examples.two_owners
  = (Ok (true, msg_saved),
     mk_db (locations Examples.two_owners)
           [mk_entry 1 7 "2026-11-04" "08:00" "17:00" None None 1000]
           [mk_daily_location 1 5 1],
     [EvConnect; EvSelect; EvBegin; EvUpsert; EvDelete; EvInsert; EvCommit;
      EvClose]).
Proof. vm_compute. reflexivity. Qed.

(** ** [add_location] *)

Lemma find_app_last {A : Type} (p : A -> bool) (l : list A) (x : A) :
  p x = true -> exists y, find p (l ++ [x]) = Some y.
Proof.
  intros Hx. induction l as [| a l IH]; simpl.
  - rewrite Hx. eauto.
  - destruct (p a); eauto.
Qed.

(** A successful [add_location] appended one active row of the user,
    named by the sanitized name. *)
Lemma add_location_success env uid name addr d d1 tr msg :
  run (add_location env uid name addr) d = (Ok (true, msg), d1, tr) ->
  exists row,
    d1 = mk_db (locations d ++ [row]) (daily_entries d) (daily_locations d)
    /\ loc_user_id row = uid
    /\ loc_name row = sanitize_input name 50
    /\ loc_active row = true.
Proof.
  unfold run, add_location.
  destruct (str_truthy name); cbn [negb]; [| intros H; inversion H].
  destruct (str_truthy (sanitize_input name 50)); cbn [negb];
    [| intros H; inversion H].
  unfold try_finally, try_except, bind, get_db_connection, begin_transaction,
    query, write, commit, close, ret, log, view.
  run_step.
  destruct (truthy (select_location_by_name uid (sanitize_input name 50) d));
    run_step; [intros H; discriminate H |].
  destruct (100 <=? count_active_locations uid d);
    run_step; [intros H; discriminate H |].
  unfold insert_location, violated.
  destruct (location_constraints env (locations d) _) as [[k c] |]; run_step.
  - intros H. discriminate H.
  - intros H. inversion H; subst.
    eexists. split; [reflexivity |]. simpl. auto.
Qed.

(** C6.  After [add_location] succeeded for a user with the name
    "Kitchen", an [add_location] for the same user with the name
    "kitchen" fails with the already-exists reason, inserts nothing and
    leaves the number of the user's active locations as it was. *)
Theorem add_location_rejects_case_variant :
  forall (env : backend) (uid : Z) (a1 a2 : option string) (d d1 : db)
         (msg : string) (tr : list event),
    run (add_location env uid "Kitchen" a1) d = (Ok (true, msg), d1, tr) ->
    run (add_location env uid "kitchen" a2) d1
    = (Ok (false, msg_exists "kitchen"), d1,
       [EvConnect; EvBegin; EvSelect; EvClose])
    /\ count_active_locations uid
         (snd (fst (run (add_location env uid "kitchen" a2) d1)))
       = count_active_locations uid d1.
Proof.
  intros env uid a1 a2 d d1 msg tr Hfirst.
  destruct (add_location_success _ _ _ _ _ _ _ _ Hfirst)
    as (row & Hd1 & Huser & Hname & Hact).
  assert (Hfound : exists y,
             find (fun l => (loc_user_id l =? uid)
                            && String.eqb (sql_lower (loc_name l))
                                          (sql_lower "kitchen")
                            && loc_active l)
                  (locations d1) = Some y).
  { rewrite Hd1. cbn [locations]. apply find_app_last.
    rewrite Huser, Hname, Hact, Z.eqb_refl. vm_compute. reflexivity. }
  destruct Hfound as (y & Hy).
  assert (Hrun : run (add_location env uid "kitchen" a2) d1
                 = (Ok (false, msg_exists "kitchen"), d1,
                    [EvConnect; EvBegin; EvSelect; EvClose])).
  { unfold run, add_location.
    change (sanitize_input "kitchen" 50) with "kitchen".
    cbn [str_truthy negb].
    unfold try_finally, try_except, bind, get_db_connection,
      begin_transaction, query, close, ret, log, view.
    cbn [txn store trace]. unfold select_location_by_name. rewrite Hy.
    reflexivity. }
  split; [exact Hrun |]. rewrite Hrun. reflexivity.
Qed.

Lemma add_location_rejects_case_variant_witness :
  run (add_location Examples.plain 7 "kitchen" (Some "Ground floor"))
      (mk_db [mk_location 1 7 "Kitchen" None true] [] [])
  = (Ok (false, msg_exists "kitchen"),
     mk_db [mk_location 1 7 "Kitchen" None true] [] [],
     [EvConnect; EvBegin; EvSelect; EvClose]).
Proof.
  apply (add_location_rejects_case_variant Examples.plain 7 None
           (Some "Ground floor") (mk_db [] [] [])
           (mk_db [mk_location 1 7 "Kitchen" None true] [] [])
           (msg_added "Kitchen")
           [EvConnect; EvBegin; EvSelect; EvSelect; EvInsert; EvCommit; EvClose]).
  vm_compute. reflexivity.
Defined.

(** ** [get_todays_entry] *)

(** The dictionary [get_todays_entry] returns has the keys [id],
    [start_time], [end_time] and [locations], and no other. *)
Lemma get_todays_entry_keys env uid d entry :
  fst (fst (run (get_todays_entry env uid) d)) = Ok (Some entry) ->
  map fst entry = ["id"; "start_time"; "end_time"; "locations"].
Proof.
  unfold run, get_todays_entry, try_finally, bind, get_db_connection, query,
    close, ret, log, view.
  cbn [txn store trace].
  destruct (select_todays_entry env uid d); cbn; intros H; inversion H.
  reflexivity.
Qed.

(** C5 at a stored entry with a break: user 7 has today's entry
    08:00-17:00 with the break 12:00-12:45 and the route 5, 3.
    [get_todays_entry] returns its id, times and the route in sequence
    order, and neither [break_start] nor [break_end], although the stored
    row has both. *)
Theorem get_todays_entry_omits_break :
  run (get_todays_entry Examples.plain 7) Examples.with_entry
  = (Ok (Some [("id", VScalar (VInt 1));
               ("start_time", VScalar (VStr "08:00"));
               ("end_time", VScalar (VStr "17:00"));
               ("locations",
                VRows [[("id", VInt 5); ("name", VStr "Garage");
                        ("address", VNone); ("sequence_order", VInt 1)];
                       [("id", VInt 3); ("name", VStr "Kitchen");
                        ("address", VNone); ("sequence_order", VInt 2)]])]),
     Examples.with_entry, [EvConnect; EvSelect; EvSelect; EvClose])
  /\ option_map ent_break_start
       (select_todays_entry Examples.plain 7 Examples.with_entry)
     = Some (Some "12:00")
  /\ option_map ent_break_end
       (select_todays_entry Examples.plain 7 Examples.with_entry)
     = Some (Some "12:45")
  /\ (forall entry,
        fst (fst (run (get_todays_entry Examples.plain 7) Examples.with_entry))
        = Ok (Some entry) ->
        dict_get "break_start" entry = None
        /\ dict_get "break_end" entry = None).
Proof.
  split; [vm_compute; reflexivity |].
  split; [vm_compute; reflexivity |].
  split; [vm_compute; reflexivity |].
  intros entry H. vm_compute in H. inversion H; subst.
  split; reflexivity.
Qed.

(* ================================================================== *)
(** * Further properties of the time functions *)
(* ================================================================== *)

Lemma py_time_valid (h m : Z) (t : time) :
  py_time h m = Ok t -> valid_time t.
Proof.
  unfold py_time. destruct (valid_timeb (mk_time h m)) eqn:V; intros H;
    inversion H; subst.
  unfold valid_timeb in V. unfold valid_time.
  repeat (apply andb_true_iff in V; destruct V as [V ?]).
  cbn [hour minute] in *. lia.
Qed.

(** X1.  Whatever the string, a time that [parse_time] returns is a time
    of the day: hour 0..23 and minute 0..59. *)
Theorem parse_time_in_range :
  forall (s : string) (t : time), parse_time s = Some t -> valid_time t.
Proof.
  intros s t. unfold parse_time, strptime_HM.
  destruct (match_HM (chars s)) as [| [[h m] rest] others];
    [discriminate |].
  destruct rest; [| discriminate].
  destruct (py_time h m) as [t' | e] eqn:E; [| discriminate].
  intros H. inversion H; subst. exact (py_time_valid _ _ _ E).
Qed.

Lemma parse_time_in_range_witness : valid_time (mk_time 9 5).
Proof.
  apply (parse_time_in_range "9:05" (mk_time 9 5)). vm_compute. reflexivity.
Defined.

Lemma parses_back_all : forallb parses_back all_times = true.
Proof. vm_compute. reflexivity. Qed.

Lemma valid_time_listed (t : time) : valid_time t -> In t all_times.
Proof.
  destruct t as [h m]. unfold valid_time; cbn [hour minute]. intros [Hh Hm].
  unfold all_times. apply in_map_iff.
  exists (Z.to_nat (h * 60 + m)). split.
  - rewrite Z2Nat.id by lia.
    replace ((h * 60 + m) / 60) with h
      by (apply Z.div_unique with (r := m); lia).
    replace ((h * 60 + m) mod 60) with m
      by (apply Z.mod_unique with (q := h); lia).
    reflexivity.
  - apply in_seq. lia.
Qed.

Lemma time_eqb_eq (a b : time) : time_eqb a b = true -> a = b.
Proof.
  destruct a as [h1 m1], b as [h2 m2]. unfold time_eqb; cbn [hour minute].
  intros H. apply andb_true_iff in H. destruct H as [H1 H2].
  apply Z.eqb_eq in H1, H2. congruence.
Qed.

(** X2.  Round trip of the page's time strings: a time of the day
    formatted with [strftime("%H:%M")] is parsed back by [parse_time] to
    the same time. *)
Theorem parse_time_strftime :
  forall t : time, valid_time t -> parse_time (strftime_HM t) = Some t.
Proof.
  intros t Ht.
  pose proof parses_back_all as Hall. rewrite forallb_forall in Hall.
  specialize (Hall t (valid_time_listed t Ht)). unfold parses_back in Hall.
  destruct (parse_time (strftime_HM t)) as [t' |]; [| discriminate Hall].
  f_equal. symmetry. exact (time_eqb_eq _ _ Hall).
Qed.

Lemma parse_time_strftime_witness :
  parse_time (strftime_HM (mk_time 7 5)) = Some (mk_time 7 5).
Proof.
  apply (parse_time_strftime (mk_time 7 5)). unfold valid_time; simpl. lia.
Defined.

(** What [validate_times] accepts, in minutes since midnight. *)
Lemma validate_times_by_minutes :
  forall (ws : time) (bs be : option time) (we : time),
    valid_time ws -> valid_time we -> valid_opt bs -> valid_opt be ->
    (fst (validate_times ws bs be we) = true <->
     time_to_minutes ws < time_to_minutes we
     /\ ((bs = None /\ be = None)
         \/ exists b1 b2,
              bs = Some b1 /\ be = Some b2
              /\ time_to_minutes ws < time_to_minutes b1
              /\ time_to_minutes b1 < time_to_minutes b2
              /\ time_to_minutes b2 < time_to_minutes we)).
Proof.
  intros ws bs be we Hws Hwe Hbs Hbe. unfold validate_times.
  pose proof (time_ge_minutes ws we Hws Hwe) as Hwork.
  destruct (time_ge ws we).
  - cbn. split; [discriminate |]. intros [Hlt _].
    destruct Hwork as [_ Hwork]. specialize (Hwork Hlt). discriminate.
  - destruct Hwork as [Hwork _]. specialize (Hwork eq_refl).
    destruct bs as [b1 |], be as [b2 |]; cbn.
    + cbn in Hbs, Hbe.
      pose proof (time_ge_minutes b1 b2 Hbs Hbe) as H1.
      pose proof (time_le_minutes b1 ws Hbs Hws) as H2.
      pose proof (time_ge_minutes b2 we Hbe Hwe) as H3.
      destruct (time_ge b1 b2).
      { cbn. split; [discriminate |].
        intros [_ [[H _] | (x & y & Ex & Ey & _ & Hxy & _)]];
          [discriminate |].
        inversion Ex; inversion Ey; subst.
        destruct H1 as [_ H1]. specialize (H1 Hxy). discriminate. }
      destruct (time_le b1 ws).
      { cbn. split; [discriminate |].
        intros [_ [[H _] | (x & y & Ex & Ey & Hx & _)]]; [discriminate |].
        inversion Ex; subst.
        destruct H2 as [_ H2]. specialize (H2 Hx). discriminate. }
      destruct (time_ge b2 we).
      { cbn. split; [discriminate |].
        intros [_ [[H _] | (x & y & Ex & Ey & _ & _ & Hy)]]; [discriminate |].
        inversion Ey; subst.
        destruct H3 as [_ H3]. specialize (H3 Hy). discriminate. }
      cbn. split; [| reflexivity]. intros _. split; [exact Hwork |].
      right. exists b1, b2.
      destruct H1 as [H1 _], H2 as [H2 _], H3 as [H3 _].
      repeat split; auto.
    + split; [discriminate |].
      intros [_ [[H _] | (x & y & _ & H & _)]]; discriminate.
    + split; [discriminate |].
      intros [_ [[_ H] | (x & y & H & _)]]; discriminate.
    + split; [| reflexivity]. intros _. auto.
Qed.

(** X3.  For times of the day [validate_times] accepts exactly the
    entries of the data model: the work start is before the work end, and
    either no break field is set, or both are and the break lies strictly
    inside the work window, start before end.  It returns the empty
    reason exactly when it accepts. *)
Theorem validate_times_accepts_iff :
  forall (ws : time) (bs be : option time) (we : time),
    valid_time ws -> valid_time we -> valid_opt bs -> valid_opt be ->
    (fst (validate_times ws bs be we) = true <->
     time_to_minutes ws < time_to_minutes we
     /\ ((bs = None /\ be = None)
         \/ exists b1 b2,
              bs = Some b1 /\ be = Some b2
              /\ time_to_minutes ws < time_to_minutes b1
              /\ time_to_minutes b1 < time_to_minutes b2
              /\ time_to_minutes b2 < time_to_minutes we))
    /\ (fst (validate_times ws bs be we) = true <->
        snd (validate_times ws bs be we) = EmptyString).
Proof.
  intros ws bs be we Hws Hwe Hbs Hbe.
  split; [exact (validate_times_by_minutes ws bs be we Hws Hwe Hbs Hbe) |].
  unfold validate_times.
  destruct (time_ge ws we); [split; discriminate |].
  destruct bs as [b1 |], be as [b2 |]; cbn; try (split; discriminate);
    try (split; reflexivity).
  destruct (time_ge b1 b2); [split; discriminate |].
  destruct (time_le b1 ws); [split; discriminate |].
  destruct (time_ge b2 we); split; try discriminate; reflexivity.
Qed.

Lemma validate_times_accepts_iff_witness :
  fst (validate_times (mk_time 8 0) (Some (mk_time 12 0))
         (Some (mk_time 12 30)) (mk_time 17 0)) = true.
Proof.
  assert (V : forall h m, 0 <= h < 24 -> 0 <= m < 60 -> valid_time (mk_time h m)).
  { intros h m Hh Hm. unfold valid_time; simpl; lia. }
  apply (proj1 (validate_times_accepts_iff (mk_time 8 0) (Some (mk_time 12 0))
           (Some (mk_time 12 30)) (mk_time 17 0)
           (V 8 0 ltac:(lia) ltac:(lia)) (V 17 0 ltac:(lia) ltac:(lia))
           (V 12 0 ltac:(lia) ltac:(lia)) (V 12 30 ltac:(lia) ltac:(lia)))).
  split; [vm_compute; reflexivity |].
  right. exists (mk_time 12 0), (mk_time 12 30).
  repeat split; vm_compute; reflexivity.
Defined.

Lemma worked_hours_within_day_all :
  forallb (fun m => hours_within_day (Spec.hours_of_minutes m)) worked_minutes
  = true.
Proof. vm_compute. reflexivity. Qed.

(** X4.  For an entry that [validate_times] accepts, [calculate_hours]
    returns strictly positive hours below 24: the worked minutes are
    between 1 and 1439, the float is their rounded quotient, and the
    deduction is 0 or 30. *)
Theorem calculate_hours_of_valid_entry :
  forall (ws : time) (bs be : option time) (we : time),
    valid_time ws -> valid_time we -> valid_opt bs -> valid_opt be ->
    fst (validate_times ws bs be we) = true ->
    1 <= Spec.total_minutes ws bs be we <= 1439
    /\ hours_within_day (fst (calculate_hours ws bs be we)) = true
    /\ (snd (calculate_hours ws bs be we) = 0
        \/ snd (calculate_hours ws bs be we) = 30).
Proof.
  intros ws bs be we Hws Hwe Hbs Hbe Hok.
  apply (validate_times_by_minutes ws bs be we Hws Hwe Hbs Hbe) in Hok.
  destruct Hok as [Hwork Hbreak].
  pose proof (time_to_minutes_range ws Hws) as Rs.
  pose proof (time_to_minutes_range we Hwe) as Re.
  assert (Htotal : 1 <= Spec.total_minutes ws bs be we <= 1439).
  { unfold Spec.total_minutes, Spec.break_duration.
    destruct Hbreak as [[-> ->] | (b1 & b2 & -> & -> & H1 & H2 & H3)]; lia. }
  split; [exact Htotal |]. rewrite calculate_hours_unfold. cbn [fst snd].
  split.
  - rewrite round_hours_decimal by lia.
    pose proof worked_hours_within_day_all as Hall.
    rewrite forallb_forall in Hall. apply Hall.
    unfold worked_minutes. apply in_map_iff.
    exists (Z.to_nat (Spec.total_minutes ws bs be we - 1)).
    split; [lia | apply in_seq; lia].
  - destruct (Spec.break_duration bs be) as [d |]; [| left; reflexivity].
    destruct (d <=? 30); [left | right]; reflexivity.
Qed.

Lemma calculate_hours_of_valid_entry_witness :
  hours_within_day
    (fst (calculate_hours (mk_time 8 0) (Some (mk_time 12 0))
            (Some (mk_time 12 30)) (mk_time 17 0))) = true.
Proof.
  assert (V : forall h m, 0 <= h < 24 -> 0 <= m < 60 -> valid_time (mk_time h m)).
  { intros h m Hh Hm. unfold valid_time; simpl; lia. }
  apply (calculate_hours_of_valid_entry (mk_time 8 0) (Some (mk_time 12 0))
           (Some (mk_time 12 30)) (mk_time 17 0)
           (V 8 0 ltac:(lia) ltac:(lia)) (V 17 0 ltac:(lia) ltac:(lia))
           (V 12 0 ltac:(lia) ltac:(lia)) (V 12 30 ltac:(lia) ltac:(lia))).
  vm_compute. reflexivity.
Defined.

(** X5.  Taking the break that [calculate_break_time] suggests for a work
    window of at least 360 minutes, [calculate_hours] reports the window
    shortened by exactly one hour and always flags the 30-minute
    deduction. *)
Theorem suggested_break_hours :
  forall ws we : time,
    valid_time ws -> valid_time we ->
    360 <= time_to_minutes we - time_to_minutes ws ->
    exists bs be,
      calculate_break_time ws we = Ok (Some bs, Some be)
      /\ calculate_hours ws (Some bs) (Some be) we
         = (Spec.hours_of_minutes
              (time_to_minutes we - time_to_minutes ws - 60), 30).
Proof.
  intros ws we Hws Hwe Hlong.
  destruct (calculate_break_time_window ws we Hws Hwe Hlong)
    as (bs & be & E & Vbs & Vbe & Mbs & Mbe).
  exists bs, be. split; [exact E |].
  pose proof (time_to_minutes_range ws Hws) as Rs.
  pose proof (time_to_minutes_range we Hwe) as Re.
  rewrite calculate_hours_unfold.
  unfold Spec.total_minutes, Spec.break_duration.
  replace (time_to_minutes be - time_to_minutes bs) with 60 by lia.
  rewrite round_hours_decimal by lia. reflexivity.
Qed.

Lemma suggested_break_hours_witness :
  exists bs be,
    calculate_break_time (mk_time 8 0) (mk_time 17 0) = Ok (Some bs, Some be)
    /\ calculate_hours (mk_time 8 0) (Some bs) (Some be) (mk_time 17 0)
       = (Spec.hours_of_minutes 480, 30).
Proof.
  apply (suggested_break_hours (mk_time 8 0) (mk_time 17 0)).
  - unfold valid_time; simpl; lia.
  - unfold valid_time; simpl; lia.
  - vm_compute. discriminate.
Defined.

(** X6.  [validate_time_entry] accepts two strings exactly when the
    validation of [save_entry] accepts them as a work window without a
    break: both parse and the start is before the end.  Whatever the
    error text of [strptime], it reports no reason on success. *)
Theorem validate_time_entry_agrees :
  forall (strptime_error : string -> string) (st en : string),
    (fst (validate_time_entry strptime_error st en) = true <->
     validate_times_call (parse_time st) None None (parse_time en)
     = Ok (true, EmptyString))
    /\ (fst (validate_time_entry strptime_error st en) = true ->
        snd (validate_time_entry strptime_error st en) = EmptyString).
Proof.
  intros err st en. unfold validate_time_entry, validate_times_call, parse_time.
  destruct (strptime_HM st) as [ws | e1]; [| split; [split |]; discriminate].
  destruct (strptime_HM en) as [we | e2]; [| split; [split |]; discriminate].
  unfold validate_times. cbn [truthy negb andb].
  destruct (time_ge ws we); cbn; split; try split; try discriminate;
    reflexivity.
Qed.

Lemma validate_time_entry_agrees_witness :
  snd (validate_time_entry (fun s => s) "08:00" "17:00") = EmptyString.
Proof.
  apply (proj2 (validate_time_entry_agrees (fun s => s) "08:00" "17:00")).
  vm_compute. reflexivity.
Defined.

(* ================================================================== *)
(** * Further properties of [sanitize_input] *)
(* ================================================================== *)











(* ================================================================== *)
(** * Further properties of [add_location] *)
(* ================================================================== *)

(** Every way [add_location] can run, with the stored database and the
    statements of each. *)
Lemma add_location_run env uid name addr d :
  run (add_location env uid name addr) d =
  if negb (str_truthy name) then (Ok (false, msg_name_empty), d, [])
  else if negb (str_truthy (sanitize_input name 50))
  then (Ok (false, msg_name_no_valid), d, [])
  else
    match select_location_by_name uid (sanitize_input name 50) d with
    | Some _ =>
        (Ok (false, msg_exists (sanitize_input name 50)), d,
         [EvConnect; EvBegin; EvSelect; EvClose])
    | None =>
        if 100 <=? count_active_locations uid d
        then (Ok (false, msg_limit), d,
              [EvConnect; EvBegin; EvSelect; EvSelect; EvClose])
        else
          match location_constraints env (locations d)
                  (new_location d uid name addr) with
          | Some _ =>
              (Ok (false, msg_constraint), d,
               [EvConnect; EvBegin; EvSelect; EvSelect; EvInsert; EvRollback;
                EvClose])
          | None =>
              (Ok (true, msg_added (sanitize_input name 50)),
               mk_db (locations d ++ [new_location d uid name addr])
                     (daily_entries d) (daily_locations d),
               [EvConnect; EvBegin; EvSelect; EvSelect; EvInsert; EvCommit;
                EvClose])
          end
    end.
Proof.
  unfold run, add_location.
  destruct (str_truthy name); cbn [negb]; [| reflexivity].
  destruct (str_truthy (sanitize_input name 50)); cbn [negb]; [| reflexivity].
  unfold try_finally, try_except, bind, get_db_connection, begin_transaction,
    query, write, commit, rollback, close, ret, log, view.
  run_step.
  destruct (select_location_by_name uid (sanitize_input name 50) d);
    run_step; [reflexivity |].
  destruct (100 <=? count_active_locations uid d); run_step; [reflexivity |].
  unfold insert_location, violated, new_location, stored_address.
  destruct (location_constraints env (locations d) _) as [[k c] |];
    run_step; reflexivity.
Qed.

Lemma next_id_above (ids : list Z) (i : Z) : In i ids -> i < next_id ids.
Proof.
  unfold next_id. induction ids as [| j ids IH]; cbn [fold_right In].
  - intros [].
  - intros [-> | Hin]; [lia | specialize (IH Hin); lia].
Qed.

Lemma next_id_fresh (ids : list Z) : ~ In (next_id ids) ids.
Proof. intros H. apply next_id_above in H. lia. Qed.

(** X9.  Whenever [add_location] does not report success, the stored
    database after the call is the stored database before it. *)
Theorem add_location_failure_leaves_store :
  forall (env : backend) (uid : Z) (name : string) (addr : option string)
         (d d' : db) (r : result (bool * string)) (tr : list event),
    run (add_location env uid name addr) d = (r, d', tr) ->
    (forall msg, r <> Ok (true, msg)) ->
    d' = d.
Proof.
  intros env uid name addr d d' r tr Hrun Hfail.
  rewrite add_location_run in Hrun.
  destruct (negb (str_truthy name)); [congruence |].
  destruct (negb (str_truthy (sanitize_input name 50))); [congruence |].
  destruct (select_location_by_name uid (sanitize_input name 50) d);
    [congruence |].
  destruct (100 <=? count_active_locations uid d); [congruence |].
  destruct (location_constraints env (locations d) _); [congruence |].
  inversion Hrun; subst. exfalso. exact (Hfail _ eq_refl).
Qed.

Lemma add_location_failure_leaves_store_witness :
  snd (fst (run (add_location Examples.plain 7 "KITCHEN" None)
                Examples.two_locations))
  = Examples.two_locations.
Proof.
  pose (out := run (add_location Examples.plain 7 "KITCHEN" None)
                   Examples.two_locations).
  assert (E : out = (Ok (false, msg_exists "KITCHEN"), snd (fst out),
                     [EvConnect; EvBegin; EvSelect; EvClose]))
    by (vm_compute; reflexivity).
  fold out.
  apply (add_location_failure_leaves_store _ _ _ _ _ _ _ _ E).
  intros msg H. discriminate H.
Defined.

(** What a successful [add_location] found and stored. *)
Lemma add_location_committed env uid name addr d d' msg tr :
  run (add_location env uid name addr) d = (Ok (true, msg), d', tr) ->
  d' = mk_db (locations d ++ [new_location d uid name addr])
             (daily_entries d) (daily_locations d)
  /\ str_truthy (sanitize_input name 50) = true
  /\ count_active_locations uid d < 100.
Proof.
  intros Hrun. rewrite add_location_run in Hrun.
  destruct (negb (str_truthy name)); [discriminate Hrun |].
  destruct (str_truthy (sanitize_input name 50)) eqn:Hname; cbn [negb] in Hrun;
    [| discriminate Hrun].
  destruct (select_location_by_name uid (sanitize_input name 50) d);
    [discriminate Hrun |].
  destruct (100 <=? count_active_locations uid d) eqn:Hcount;
    [discriminate Hrun |].
  destruct (location_constraints env (locations d) _); [discriminate Hrun |].
  inversion Hrun; subst. apply Z.leb_gt in Hcount. auto.
Qed.

(** X10.  A successful [add_location] appends exactly one row and changes
    nothing else: the row is active, belongs to the user, carries the
    sanitized, non-empty name and an id used by no other location; the
    user now has one more active location, at most 100. *)
Theorem add_location_success_effect :
  forall (env : backend) (uid : Z) (name : string) (addr : option string)
         (d d' : db) (msg : string) (tr : list event),
    run (add_location env uid name addr) d = (Ok (true, msg), d', tr) ->
    exists row,
      d' = mk_db (locations d ++ [row]) (daily_entries d) (daily_locations d)
      /\ loc_user_id row = uid
      /\ loc_name row = sanitize_input name 50
      /\ loc_name row <> EmptyString
      /\ loc_active row = true
      /\ ~ In (loc_id row) (map loc_id (locations d))
      /\ count_active_locations uid d' = count_active_locations uid d + 1
      /\ count_active_locations uid d' <= 100.
Proof.
  intros env uid name addr d d' msg tr Hrun.
  destruct (add_location_committed _ _ _ _ _ _ _ _ Hrun)
    as (-> & Hname & Hcount).
  exists (new_location d uid name addr).
  assert (Hmore : count_active_locations uid
                    (mk_db (locations d ++ [new_location d uid name addr])
                           (daily_entries d) (daily_locations d))
                  = count_active_locations uid d + 1).
  { unfold count_active_locations. cbn [locations].
    rewrite filter_app, length_app. cbn [filter new_location loc_user_id loc_active].
    rewrite Z.eqb_refl. cbn. lia. }
  repeat split; try reflexivity.
  - cbn [new_location loc_name]. intros E. rewrite E in Hname. discriminate.
  - apply next_id_fresh.
  - exact Hmore.
  - rewrite Hmore. lia.
Qed.

Lemma add_location_success_effect_witness :
  exists row,
    snd (fst (run (add_location Examples.plain 7 " Attic! " None)
                  Examples.two_locations))
    = mk_db (locations Examples.two_locations ++ [row]) [] []
    /\ loc_name row = "Attic".
Proof.
  pose (out := run (add_location Examples.plain 7 " Attic! " None)
                   Examples.two_locations).
  assert (E : out = (Ok (true, msg_added "Attic"), snd (fst out),
                     [EvConnect; EvBegin; EvSelect; EvSelect; EvInsert;
                      EvCommit; EvClose]))
    by (vm_compute; reflexivity).
  destruct (add_location_success_effect _ _ _ _ _ _ _ _ E)
    as (row & Hd & _ & Hname & _).
  exists row. fold out. split; [exact Hd |]. rewrite Hname.
  vm_compute. reflexivity.
Defined.

(** The stored database after [add_location]: the one before, or the one
    with the new row when nothing stood in the way. *)
Lemma add_location_store env uid name addr d :
  snd (fst (run (add_location env uid name addr) d)) = d
  \/ (snd (fst (run (add_location env uid name addr) d))
      = mk_db (locations d ++ [new_location d uid name addr])
              (daily_entries d) (daily_locations d)
      /\ select_location_by_name uid (sanitize_input name 50) d = None
      /\ count_active_locations uid d < 100).
Proof.
  rewrite add_location_run.
  destruct (negb (str_truthy name)); [left; reflexivity |].
  destruct (negb (str_truthy (sanitize_input name 50))); [left; reflexivity |].
  destruct (select_location_by_name uid (sanitize_input name 50) d);
    [left; reflexivity |].
  destruct (100 <=? count_active_locations uid d) eqn:Hcount;
    [left; reflexivity |].
  destruct (location_constraints env (locations d) _); [left; reflexivity |].
  right. apply Z.leb_gt in Hcount. auto.
Qed.

Lemma keys_after_new_row (d : db) (row : location_row) :
  keys_ok d -> ~ In (loc_id row) (map loc_id (locations d)) ->
  keys_ok (mk_db (locations d ++ [row]) (daily_entries d) (daily_locations d)).
Proof.
  intros [K1 K2 K3 K4] Hfresh. constructor; cbn [locations daily_entries
    daily_locations]; try assumption.
  rewrite map_app. apply NoDup_app; [exact K1 | | ].
  - cbn. constructor; [intros [] | constructor].
  - intros i Hi [<- | []]. exact (Hfresh Hi).
Qed.

(** X11.  [add_location] keeps the keys of the store: if location ids,
    entry ids, entries per user and date, and positions per entry are
    unique before the call, they are unique after it, whatever it
    returned. *)
Theorem add_location_keeps_keys :
  forall (env : backend) (uid : Z) (name : string) (addr : option string)
         (d : db),
    keys_ok d -> keys_ok (snd (fst (run (add_location env uid name addr) d))).
Proof.
  intros env uid name addr d Hkeys.
  destruct (add_location_store env uid name addr d) as [-> | (-> & _)];
    [exact Hkeys |].
  apply keys_after_new_row; [exact Hkeys |]. apply next_id_fresh.
Qed.

Lemma add_location_keeps_keys_witness :
  keys_ok (snd (fst (run (add_location Examples.plain 7 "Attic" None)
                         Examples.two_locations))).
Proof.
  apply (add_location_keeps_keys Examples.plain 7 "Attic" None
           Examples.two_locations).
  constructor; cbn; repeat constructor; cbn; intuition discriminate.
Defined.

Lemma select_location_none (uid : Z) (name : string) (d : db) (l : location_row) :
  select_location_by_name uid name d = None ->
  In l (locations d) -> loc_active l = true ->
  name_key l <> (uid, sql_lower name).
Proof.
  unfold select_location_by_name, name_key. intros Hnone Hin Hact Hkey.
  destruct (find _ (locations d)) eqn:Hfind; [discriminate Hnone |].
  pose proof (find_none _ _ Hfind l Hin) as Hl. cbn beta in Hl.
  inversion Hkey as [[Huser Hname]].
  rewrite Huser, Hname, Hact, Z.eqb_refl, String.eqb_refl in Hl. discriminate.
Qed.

(** X12.  [add_location] keeps the names of a user's active locations
    distinct up to case: if no two active locations of one user have
    names that differ only in case before the call, none do after it. *)
Theorem add_location_keeps_names :
  forall (env : backend) (uid : Z) (name : string) (addr : option string)
         (d : db),
    names_ok d -> names_ok (snd (fst (run (add_location env uid name addr) d))).
Proof.
  intros env uid name addr d Hnames.
  destruct (add_location_store env uid name addr d) as [-> | (-> & Hnone & _)];
    [exact Hnames |].
  unfold names_ok in *. cbn [locations].
  rewrite filter_app, map_app. cbn [filter new_location loc_active map].
  apply NoDup_app; [exact Hnames | | ].
  - constructor; [intros [] | constructor].
  - intros key Hkey [<- | []]. apply in_map_iff in Hkey.
    destruct Hkey as (l & Hl & Hin). apply filter_In in Hin.
    destruct Hin as [Hin Hact].
    exact (select_location_none uid _ d l Hnone Hin Hact Hl).
Qed.

Lemma add_location_keeps_names_witness :
  names_ok (snd (fst (run (add_location Examples.plain 7 "garage" None)
                          Examples.two_locations))).
Proof.
  apply (add_location_keeps_names Examples.plain 7 "garage" None
           Examples.two_locations).
  unfold names_ok. cbn. repeat constructor; cbn; intuition discriminate.
Defined.

(** X13.  [add_location] keeps the cap: if no user has more than 100
    active locations before the call, none has after it. *)
Theorem add_location_keeps_limit :
  forall (env : backend) (uid : Z) (name : string) (addr : option string)
         (d : db),
    within_limit d ->
    within_limit (snd (fst (run (add_location env uid name addr) d))).
Proof.
  intros env uid name addr d Hlimit.
  destruct (add_location_store env uid name addr d) as [-> | (-> & _ & Hroom)];
    [exact Hlimit |].
  intros u. specialize (Hlimit u). unfold count_active_locations in *.
  cbn [locations]. rewrite filter_app, length_app.
  cbn [filter new_location loc_user_id loc_active].
  destruct (Z.eqb_spec uid u) as [-> | Hother]; cbn; lia.
Qed.

Lemma add_location_keeps_limit_witness :
  within_limit (snd (fst (run (add_location Examples.plain 7 "Attic" None)
                              Examples.two_locations))).
Proof.
  apply (add_location_keeps_limit Examples.plain 7 "Attic" None
           Examples.two_locations).
  intros u. unfold count_active_locations.
  pose proof (filter_length_le
                (fun l => (loc_user_id l =? u) && loc_active l)
                (locations Examples.two_locations)) as Hle.
  assert (Hlen : List.length (locations Examples.two_locations) = 2%nat)
    by reflexivity.
  lia.
Defined.

(** X14.  A name that is empty, or has no letter, digit or allowed
    punctuation left after sanitizing, is rejected by [add_location]
    before any connection is opened. *)
Theorem add_location_unusable_name :
  forall (env : backend) (uid : Z) (name : string) (addr : option string)
         (d : db),
    sanitize_input name 50 = EmptyString ->
    run (add_location env uid name addr) d
    = (Ok (false, if str_truthy name then msg_name_no_valid else msg_name_empty),
       d, []).
Proof.
  intros env uid name addr d Hempty. rewrite add_location_run, Hempty.
  destruct (str_truthy name); reflexivity.
Qed.

Lemma add_location_unusable_name_witness :
  run (add_location Examples.plain 7 "<*!@*>" None) Examples.two_locations
  = (Ok (false, msg_name_no_valid), Examples.two_locations, []).
Proof.
  apply (add_location_unusable_name Examples.plain 7 "<*!@*>" None
           Examples.two_locations).
  vm_compute. reflexivity.
Defined.

(** X15.  [add_location] fails with the already-exists reason, and stores
    nothing, whenever the user has an active location whose name equals
    the sanitized new name up to the case of ASCII letters. *)
Theorem add_location_duplicate_name :
  forall (env : backend) (uid : Z) (name : string) (addr : option string)
         (d : db) (l : location_row),
    In l (locations d) -> loc_user_id l = uid -> loc_active l = true ->
    sanitize_input name 50 <> EmptyString ->
    sql_lower (loc_name l) = sql_lower (sanitize_input name 50) ->
    run (add_location env uid name addr) d
    = (Ok (false, msg_exists (sanitize_input name 50)), d,
       [EvConnect; EvBegin; EvSelect; EvClose]).
Proof.
  intros env uid name addr d l Hin Huser Hact Hname Hsame.
  rewrite add_location_run.
  assert (Hraw : str_truthy name = true).
  { destruct name; [| reflexivity]. exfalso. apply Hname. reflexivity. }
  assert (Hclean : str_truthy (sanitize_input name 50) = true).
  { destruct (sanitize_input name 50); [| reflexivity].
    exfalso. apply Hname. reflexivity. }
  rewrite Hraw, Hclean. cbn [negb].
  destruct (select_location_by_name uid (sanitize_input name 50) d) eqn:Hsel;
    [reflexivity |].
  exfalso. apply (select_location_none uid _ d l Hsel Hin Hact).
  unfold name_key. now rewrite Huser, Hsame.
Qed.

Lemma add_location_duplicate_name_witness :
  run (add_location Examples.plain 7 " GARAGE? " (Some "x")) Examples.two_locations
  = (Ok (false, msg_exists "GARAGE"), Examples.two_locations,
     [EvConnect; EvBegin; EvSelect; EvClose]).
Proof.
  apply (add_location_duplicate_name Examples.plain 7 " GARAGE? " (Some "x")
           Examples.two_locations
           (mk_location 5 7 "Garage" (Some "12 Main St.") true)).
  - cbn. auto.
  - reflexivity.
  - reflexivity.
  - vm_compute. discriminate.
  - vm_compute. reflexivity.
Defined.

(** X16.  With 100 active locations the user cannot add another: a new
    usable name is refused with the limit reason and nothing is stored. *)
Theorem add_location_at_limit :
  forall (env : backend) (uid : Z) (name : string) (addr : option string)
         (d : db),
    sanitize_input name 50 <> EmptyString ->
    select_location_by_name uid (sanitize_input name 50) d = None ->
    100 <= count_active_locations uid d ->
    run (add_location env uid name addr) d
    = (Ok (false, msg_limit), d,
       [EvConnect; EvBegin; EvSelect; EvSelect; EvClose]).
Proof.
  intros env uid name addr d Hname Hnone Hfull.
  rewrite add_location_run, Hnone.
  assert (Hraw : str_truthy name = true).
  { destruct name; [| reflexivity]. exfalso. apply Hname. reflexivity. }
  assert (Hclean : str_truthy (sanitize_input name 50) = true).
  { destruct (sanitize_input name 50); [| reflexivity].
    exfalso. apply Hname. reflexivity. }
  rewrite Hraw, Hclean. cbn [negb].
  apply Z.leb_le in Hfull. now rewrite Hfull.
Qed.

Lemma add_location_at_limit_witness :
  fst (fst (run (add_location Examples.plain 7 "Attic" None)
                (mk_db (repeat (mk_location 1 7 "Room" None true) 100) [] [])))
  = Ok (false, msg_limit).
Proof.
  rewrite (add_location_at_limit Examples.plain 7 "Attic" None
             (mk_db (repeat (mk_location 1 7 "Room" None true) 100) [] [])).
  - reflexivity.
  - vm_compute. discriminate.
  - vm_compute. reflexivity.
  - vm_compute. discriminate.
Defined.

(* ================================================================== *)
(** * Properties of [get_user_locations] *)
(* ================================================================== *)

Lemma insert_by_name_perm before (x : location_row) (l : list location_row) :
  Permutation (insert_by_name before x l) (x :: l).
Proof.
  induction l as [| y r IH]; cbn [insert_by_name]; [reflexivity |].
  destruct (before (loc_name x) (loc_name y)); [reflexivity |].
  rewrite IH. apply perm_swap.
Qed.

Lemma order_by_name_perm before (l : list location_row) :
  Permutation (order_by_name before l) l.
Proof.
  induction l as [| x l IH]; cbn [order_by_name fold_right]; [reflexivity |].
  fold (order_by_name before l). rewrite insert_by_name_perm. now rewrite IH.
Qed.

Lemma insert_by_name_sorted before (x : location_row) (l : list location_row) :
  Sorted (name_le before) l -> Sorted (name_le before) (insert_by_name before x l).
Proof.
  induction l as [| y r IH]; cbn [insert_by_name]; intros Hs.
  - repeat constructor.
  - destruct (before (loc_name x) (loc_name y)) eqn:Hlt.
    + constructor; [exact Hs |]. constructor. left. exact Hlt.
    + inversion Hs as [| ? ? Hr Hhd]; subst.
      constructor; [exact (IH Hr) |].
      destruct r as [| z r']; cbn [insert_by_name].
      * constructor. right. exact Hlt.
      * destruct (before (loc_name x) (loc_name z)).
        -- constructor. right. exact Hlt.
        -- inversion Hhd; subst. constructor. assumption.
Qed.

Lemma order_by_name_sorted before (l : list location_row) :
  Sorted (name_le before) (order_by_name before l).
Proof.
  induction l as [| x l IH]; cbn [order_by_name fold_right]; [constructor |].
  apply insert_by_name_sorted. exact IH.
Qed.

(** Under the BINARY collation the order is the byte order of names. *)
Lemma name_le_binary (a b : location_row) :
  name_le String.ltb a b <-> String.leb (loc_name a) (loc_name b) = true.
Proof.
  unfold name_le, String.ltb, String.leb.
  rewrite (String.compare_antisym (loc_name a) (loc_name b)).
  destruct (String.compare (loc_name b) (loc_name a)); cbn;
    intuition congruence.
Qed.

Lemma order_by_name_In before (l : list location_row) (x : location_row) :
  In x (order_by_name before l) <-> In x l.
Proof.
  split; apply Permutation_in;
    [apply order_by_name_perm | apply Permutation_sym, order_by_name_perm].
Qed.

Lemma user_locations_In (uid : Z) (d : db) (l : location_row) :
  In l (user_locations uid d) <->
  In l (locations d) /\ loc_user_id l = uid /\ loc_active l = true.
Proof.
  unfold user_locations. rewrite filter_In, andb_true_iff, Z.eqb_eq. tauto.
Qed.

(** X17.  Whatever the collation of the name column, [get_user_locations]
    returns exactly the user's active locations, each once, in the order
    of that collation (the byte order of names under BINARY), as
    dictionaries with the keys [id], [name] and [address]; it never
    changes the store and never returns a location of another user or an
    inactive one. *)
Theorem get_user_locations_spec :
  forall (name_before : string -> string -> bool) (uid : Z) (d : db),
    exists rows,
      run (get_user_locations name_before uid) d
      = (Ok (map location_dict rows), d, [EvConnect; EvSelect; EvClose])
      /\ Permutation rows (user_locations uid d)
      /\ Sorted (name_le name_before) rows
      /\ (forall l, In l rows <->
            In l (locations d) /\ loc_user_id l = uid /\ loc_active l = true).
Proof.
  intros before uid d. exists (order_by_name before (user_locations uid d)).
  split; [reflexivity |].
  split; [apply order_by_name_perm |].
  split; [apply order_by_name_sorted |].
  intros l. rewrite order_by_name_In. apply user_locations_In.
Qed.

(** X18.  After a successful [add_location] the new location is listed by
    [get_user_locations] for that user, under its sanitized name. *)
Theorem add_location_then_listed :
  forall (env : backend) (name_before : string -> string -> bool) (uid : Z)
         (name : string) (addr : option string)
         (d d' : db) (msg : string) (tr : list event),
    run (add_location env uid name addr) d = (Ok (true, msg), d', tr) ->
    exists rows i a,
      fst (fst (run (get_user_locations name_before uid) d')) = Ok rows
      /\ In [("id", VInt i); ("name", VStr (sanitize_input name 50));
             ("address", a)] rows
      /\ ~ In i (map loc_id (locations d)).
Proof.
  intros env before uid name addr d d' msg tr Hrun.
  destruct (add_location_committed _ _ _ _ _ _ _ _ Hrun) as (-> & _ & _).
  set (row := new_location d uid name addr).
  exists (map location_dict
              (order_by_name before
                 (user_locations uid
                    (mk_db (locations d ++ [row]) (daily_entries d)
                           (daily_locations d))))),
         (loc_id row), (opt_str (loc_address row)).
  split; [reflexivity |]. split; [| apply next_id_fresh].
  change (In (location_dict row)
             (map location_dict
                  (order_by_name before
                     (user_locations uid
                        (mk_db (locations d ++ [row]) (daily_entries d)
                               (daily_locations d)))))).
  apply in_map. apply order_by_name_In. apply user_locations_In.
  cbn [locations]. split; [apply in_or_app; right; left; reflexivity |].
  split; reflexivity.
Qed.

Lemma add_location_then_listed_witness :
  exists rows i a,
    fst (fst (run (get_user_locations String.ltb 7)
                  (snd (fst (run (add_location Examples.plain 7 " Attic! " None)
                                 Examples.two_locations))))) = Ok rows
    /\ In [("id", VInt i); ("name", VStr "Attic"); ("address", a)] rows.
Proof.
  pose (out := run (add_location Examples.plain 7 " Attic! " None)
                   Examples.two_locations).
  assert (E : out = (Ok (true, msg_added "Attic"), snd (fst out),
                     [EvConnect; EvBegin; EvSelect; EvSelect; EvInsert;
                      EvCommit; EvClose]))
    by (vm_compute; reflexivity).
  destruct (add_location_then_listed _ String.ltb _ _ _ _ _ _ _ E)
    as (rows & i & a & Hget & Hin & _).
  exists rows, i, a. fold out. split; [exact Hget |].
  change (sanitize_input " Attic! " 50) with "Attic" in Hin. exact Hin.
Defined.

(* ================================================================== *)
(** * Further properties of [save_entry] and [get_todays_entry] *)
(* ================================================================== *)

Lemma insert_daily_location_row env eid lid order d d1 :
  insert_daily_location env eid lid order d = Ok (tt, d1) ->
  d1 = mk_db (locations d) (daily_entries d)
             (daily_locations d ++ [mk_daily_location eid lid order]).
Proof.
  unfold insert_daily_location, violated.
  destruct (daily_location_constraints env _ _) as [[k c] |]; [discriminate |].
  destruct (existsb _ _); [discriminate |].
  intros H. inversion H. reflexivity.
Qed.

(** The insert loop, when it runs to its end, appended the route in
    order to the working copy. *)
Lemma insert_locations_done env (ids : list Z) :
  forall eid order s s',
    insert_locations env eid order ids s = (Ok None, s') ->
    store s' = store s
    /\ view s'
       = mk_db (locations (view s)) (daily_entries (view s))
               (daily_locations (view s) ++ sequence_rows eid order ids).
Proof.
  induction ids as [| lid rest IH]; intros eid order s s' H;
    cbn [insert_locations sequence_rows] in H |- *.
  - inversion H; subst. split; [reflexivity |].
    rewrite app_nil_r. destruct (view s'); reflexivity.
  - unfold bind at 1 in H. unfold try_except, bind, write, ret in H.
    destruct (insert_daily_location env eid lid order (view s))
      as [[[] d1] | e] eqn:Hrow.
    + apply insert_daily_location_row in Hrow.
      destruct (IH _ _ _ _ H) as [Hstore Hview].
      cbn [store] in Hstore. split; [exact Hstore |].
      rewrite Hview. unfold view at 1 2 3. cbn [txn]. rewrite Hrow.
      cbn [locations daily_entries daily_locations].
      now rewrite <- app_assoc.
    + destruct e as [| | k c |]; try discriminate H.
      destruct k; discriminate H.
Qed.

(** A transaction of [save_entry] that returned success: the upsert went
    through, and the working copy it committed has the route of the
    entry replaced by the new one. *)
Lemma save_transaction_committed env uid st en bs be ids s v s' :
  save_entry_transaction env uid st en bs be ids s = (Ok v, s') ->
  fst v = true ->
  exists eid d1,
    upsert_entry env uid st en bs be (view s) = Ok (eid, d1)
    /\ v = (true, msg_saved)
    /\ txn s' = None
    /\ store s'
       = mk_db (locations d1) (daily_entries d1)
               (filter (fun r => negb (dl_entry_id r =? eid)) (daily_locations d1)
                ++ sequence_rows eid 1 ids).
Proof.
  unfold save_entry_transaction. intros H Hv.
  unfold try_except in H. unfold bind at 1 in H. unfold write at 1 in H.
  destruct (upsert_entry env uid st en bs be (view s)) as [[eid d1] | e] eqn:Hup.
  - exists eid, d1. split; [reflexivity |].
    unfold bind at 1 in H. unfold write at 1, delete_entry_locations in H.
    cbn [view txn] in H.
    unfold bind at 1 in H.
    match type of H with
    | context [insert_locations ?x1 ?x2 ?x3 ?x4 ?x5] =>
        destruct (insert_locations x1 x2 x3 x4 x5) as [[[w |] | e] s3] eqn:Hloop
    end.
    + destruct (insert_locations_quiet env ids _ _ _ _ _ Hloop) as [_ (k & ->)].
      cbn in H. inversion H; subst. discriminate Hv.
    + destruct (insert_locations_done env ids _ _ _ _ Hloop) as [_ Hview].
      cbn in H. inversion H; subst. cbn [store txn].
      repeat split. rewrite Hview. reflexivity.
    + destruct e as [| | k c |]; try discriminate H.
      destruct k; try discriminate H.
      cbn in H. inversion H; subst. discriminate Hv.
  - destruct e as [| | k c |]; try discriminate H.
    destruct k; try discriminate H.
    cbn in H. inversion H; subst. discriminate Hv.
Qed.

(** What a successful [save_entry] checked and stored. *)
Lemma save_entry_committed env uid st en bs be ids d d' msg tr :
  run (save_entry env uid st en bs be ids) d = (Ok (true, msg), d', tr) ->
  exists eid d1,
    validate_times_call (parse_time st) (parse_optional bs)
      (parse_optional be) (parse_time en) = Ok (true, EmptyString)
    /\ ids <> []
    /\ count_active_in ids d = Z.of_nat (List.length ids)
    /\ upsert_entry env uid st en bs be d = Ok (eid, d1)
    /\ msg = msg_saved
    /\ d' = mk_db (locations d) (daily_entries d1)
                  (filter (fun r => negb (dl_entry_id r =? eid)) (daily_locations d)
                   ++ sequence_rows eid 1 ids).
Proof.
  unfold run, save_entry. unfold bind at 1.
  destruct (validate_times_call _ _ _ _) as [[is_valid error] | e] eqn:Hvalid;
    [| intros H; discriminate H].
  destruct is_valid; cbn [negb]; [| intros H; discriminate H].
  destruct ids as [| i rest]; [intros H; discriminate H |].
  unfold bind, get_db_connection. rewrite save_entry_connected_unfold.
  cbn [view txn store trace].
  destruct (count_active_in (i :: rest) d =? Z.of_nat (List.length (i :: rest)))
    eqn:Hcount; cbn [negb]; [| intros H; discriminate H].
  apply Z.eqb_eq in Hcount.
  unfold try_finally, try_except. unfold bind at 1.
  unfold begin_transaction, log. cbn [txn store trace].
  match goal with
  | |- context [save_entry_transaction ?x1 ?x2 ?x3 ?x4 ?x5 ?x6 ?x7 ?x8] =>
      destruct (save_entry_transaction x1 x2 x3 x4 x5 x6 x7 x8)
        as [[v | e] s2] eqn:Htxn
  end.
  - cbn. intros H. inversion H; subst.
    destruct (save_transaction_committed _ _ _ _ _ _ _ _ _ _ Htxn eq_refl)
      as (eid & d1 & Hup & Hv & _ & Hstore).
    cbn [view txn] in Hup. inversion Hv; subst.
    exists eid, d1. rewrite Hstore.
    assert (Hsame : locations d1 = locations d
                    /\ daily_locations d1 = daily_locations d).
    { unfold upsert_entry, violated in Hup.
      destruct (find _ (daily_entries d));
        destruct (entry_constraints env _ _) as [[k c] |];
        inversion Hup; subst; auto. }
    destruct Hsame as [-> ->].
    assert (Hmsg : error = EmptyString).
    { unfold validate_times_call in Hvalid.
      destruct (parse_time st), (parse_time en); try discriminate Hvalid.
      inversion Hvalid as [Hv']. unfold validate_times in Hv'.
      destruct (time_ge _ _); [discriminate Hv' |].
      destruct (parse_optional bs), (parse_optional be); cbn in Hv';
        try (inversion Hv'; reflexivity).
      destruct (time_ge _ _); [discriminate Hv' |].
      destruct (time_le _ _); [discriminate Hv' |].
      destruct (time_ge _ _); [discriminate Hv' |].
      inversion Hv'; reflexivity. }
    subst error. repeat split; auto. discriminate.
  - destruct (is_sqlite_error e); cbn; intros H; discriminate H.
Qed.

(** A full count means that every id of the list names an active row. *)
Lemma count_full_active (ids : list Z) (d : db) :
  NoDup (map loc_id (locations d)) ->
  count_active_in ids d = Z.of_nat (List.length ids) ->
  forall i, In i ids -> is_active_location d i.
Proof.
  intros Hkey Hcount i Hi. rewrite count_active_in_matching in Hcount.
  apply Nat2Z.inj in Hcount.
  assert (Hincl : incl ids (matching_ids ids d)).
  { apply NoDup_length_incl.
    - apply matching_ids_NoDup. exact Hkey.
    - rewrite Hcount. apply Nat.le_refl.
    - apply matching_ids_incl. }
  specialize (Hincl i Hi). unfold matching_ids in Hincl.
  apply in_map_iff in Hincl. destruct Hincl as (l & Hid & Hl).
  apply filter_In in Hl. destruct Hl as [Hl Hp].
  apply andb_true_iff in Hp. exists l. tauto.
Qed.

(** X19.  What [save_entry] never stores: when it reports success, the
    time arguments passed [validate_times], and the route was not empty,
    repeated no location and cited only locations that exist and are
    active (location ids being a key of [locations]). *)
Theorem save_entry_success_requires :
  forall (env : backend) (uid : Z) (st en : string) (bs be : option string)
         (ids : list Z) (d d' : db) (msg : string) (tr : list event),
    NoDup (map loc_id (locations d)) ->
    run (save_entry env uid st en bs be ids) d = (Ok (true, msg), d', tr) ->
    validate_times_call (parse_time st) (parse_optional bs)
      (parse_optional be) (parse_time en) = Ok (true, EmptyString)
    /\ ids <> []
    /\ NoDup ids
    /\ (forall i, In i ids -> is_active_location d i).
Proof.
  intros env uid st en bs be ids d d' msg tr Hkey Hrun.
  destruct (save_entry_committed _ _ _ _ _ _ _ _ _ _ _ Hrun)
    as (eid & d1 & Hvalid & Hne & Hcount & _).
  repeat split; try assumption.
  - exact (count_full_NoDup ids d Hkey Hcount).
  - exact (count_full_active ids d Hkey Hcount).
Qed.

Lemma save_entry_success_requires_witness :
  NoDup [5; 3] /\ is_active_location Examples.with_entry 5.
Proof.
  pose (out := run (save_entry Examples.plain 7 "09:00" "18:00" None None [5; 3])
                   Examples.with_entry).
  assert (E : out = (Ok (true, msg_saved), snd (fst out),
                     [EvConnect; EvSelect; EvBegin; EvUpsert; EvDelete;
                      EvInsert; EvInsert; EvCommit; EvClose]))
    by (vm_compute; reflexivity).
  assert (K : NoDup (map loc_id (locations Examples.with_entry))).
  { cbn. repeat constructor; cbn; intuition discriminate. }
  destruct (save_entry_success_requires _ _ _ _ _ _ _ _ _ _ _ K E)
    as (_ & _ & Hnodup & Hactive).
  split; [exact Hnodup |]. apply Hactive. cbn. auto.
Defined.

Lemma store_failure_returns (r : result (bool * string)) :
  store_failure r -> exists v, r = Ok v.
Proof. intros F. destruct F; eauto. Qed.


Lemma parses_back_sound (t : time) :
  valid_time t -> parse_time (strftime_HM t) = Some t.
Proof.
  intros Ht.
  pose proof parses_back_all as Hall. rewrite forallb_forall in Hall.
  specialize (Hall t (valid_time_listed t Ht)). unfold parses_back in Hall.
  destruct (parse_time (strftime_HM t)) as [t' |]; [| discriminate Hall].
  f_equal. symmetry. exact (time_eqb_eq _ _ Hall).
Qed.

Lemma parse_optional_strftime (o : option time) :
  valid_opt o -> parse_optional (option_map strftime_HM o) = o.
Proof.
  destruct o as [t |]; cbn [option_map parse_optional valid_opt];
    [| reflexivity].
  intros Ht. rewrite (parses_back_sound t Ht). reflexivity.
Qed.

(** X21.  The save button validates the widget times themselves: for
    times of the day, formatting them and parsing them back inside
    [save_entry] loses nothing, so the call never raises, and when
    [validate_times] rejects the times it returns that reason without
    opening a connection. *)
Theorem save_button_validates_times :
  forall (env : backend) (uid : Z) (ws we : time) (bs be : option time)
         (ids : list Z) (d : db),
    valid_time ws -> valid_time we -> valid_opt bs -> valid_opt be ->
    (forall e, fst (fst (run (save_button env uid ws we bs be ids) d)) <> Raise e)
    /\ (forall reason,
          validate_times ws bs be we = (false, reason) ->
          run (save_button env uid ws we bs be ids) d
          = (Ok (false, reason), d, [])).
Proof.
  intros env uid ws we bs be ids d Hws Hwe Hbs Hbe.
  assert (Hcall : validate_times_call (parse_time (strftime_HM ws))
                    (parse_optional (option_map strftime_HM bs))
                    (parse_optional (option_map strftime_HM be))
                    (parse_time (strftime_HM we))
                  = Ok (validate_times ws bs be we)).
  { rewrite (parses_back_sound ws Hws), (parses_back_sound we Hwe),
      (parse_optional_strftime bs Hbs), (parse_optional_strftime be Hbe).
    reflexivity. }
  split.
  - intros e He. unfold save_button in He.
    assert (Hraise : e = TypeError
                     /\ (parse_time (strftime_HM ws) = None
                         \/ parse_time (strftime_HM we) = None)).
    { revert He. unfold run, save_entry. unfold bind at 1. rewrite Hcall.
      destruct (validate_times ws bs be we) as [is_valid error].
      destruct is_valid; cbn [negb]; [| cbn; discriminate].
      destruct ids as [| i rest]; [cbn; discriminate |].
      unfold bind, get_db_connection.
      match goal with
      | |- context [save_entry_connected ?x1 ?x2 ?x3 ?x4 ?x5 ?x6 ?x7 ?x8] =>
          destruct (save_entry_connected x1 x2 x3 x4 x5 x6 x7 x8)
            as [r s'] eqn:E
      end.
      cbn [fst]. intros ->.
      destruct (save_entry_connected_guarded _ _ _ _ _ _ _ _ _ _ E)
        as [(a & Ha & _) | [_ [F | F]]]; try discriminate.
      destruct (store_failure_returns _ F) as [v Hv]. discriminate. }
    destruct Hraise as [_ [H | H]].
    + rewrite (parses_back_sound ws Hws) in H. discriminate H.
    + rewrite (parses_back_sound we Hwe) in H. discriminate H.
  - intros reason Hreject. unfold save_button, run, save_entry.
    unfold bind at 1. rewrite Hcall, Hreject. reflexivity.
Qed.

Lemma save_button_validates_times_witness :
  run (save_button Examples.plain 7 (mk_time 8 0) (mk_time 17 0)
         (Some (mk_time 12 0)) (Some (mk_time 17 30)) [3]) Examples.with_entry
  = (Ok (false, msg_break_after_work), Examples.with_entry, []).
Proof.
  assert (V : forall h m, 0 <= h < 24 -> 0 <= m < 60 -> valid_time (mk_time h m)).
  { intros h m Hh Hm. unfold valid_time; simpl; lia. }
  apply (save_button_validates_times Examples.plain 7 (mk_time 8 0)
           (mk_time 17 0) (Some (mk_time 12 0)) (Some (mk_time 17 30)) [3]
           Examples.with_entry
           (V 8 0 ltac:(lia) ltac:(lia)) (V 17 0 ltac:(lia) ltac:(lia))
           (V 12 0 ltac:(lia) ltac:(lia)) (V 17 30 ltac:(lia) ltac:(lia))).
  vm_compute. reflexivity.
Defined.

(** The two ways the upsert goes through. *)
Lemma upsert_entry_done env uid st en bs be d eid d1 :
  upsert_entry env uid st en bs be d = Ok (eid, d1) ->
  (exists old,
      find (is_todays_entry env uid) (daily_entries d) = Some old
      /\ eid = ent_id old
      /\ daily_entries d1
         = map (upsert_row env uid st en bs be) (daily_entries d))
  \/ (find (is_todays_entry env uid) (daily_entries d) = None
      /\ eid = next_id (map ent_id (daily_entries d))
      /\ daily_entries d1
         = daily_entries d ++ [saved_entry env eid uid st en bs be]).
Proof.
  unfold upsert_entry, violated.
  destruct (find (is_todays_entry env uid) (daily_entries d)) as [old |].
  - destruct (entry_constraints env _ _) as [[k c] |]; [discriminate |].
    intros H. inversion H; subst. left. exists old. auto.
  - destruct (entry_constraints env _ _) as [[k c] |]; [discriminate |].
    intros H. inversion H; subst. right. auto.
Qed.

Lemma is_todays_entry_key env uid (e : entry_row) :
  is_todays_entry env uid e = true <-> entry_key e = (uid, today env).
Proof.
  unfold is_todays_entry, entry_key.
  rewrite andb_true_iff, Z.eqb_eq, String.eqb_eq.
  split; [intros [-> ->]; reflexivity | intros H; inversion H; auto].
Qed.

Lemma upsert_row_id env uid st en bs be (e : entry_row) :
  ent_id (upsert_row env uid st en bs be e) = ent_id e.
Proof. unfold upsert_row. destruct (is_todays_entry env uid e); reflexivity. Qed.

Lemma upsert_row_key env uid st en bs be (e : entry_row) :
  entry_key (upsert_row env uid st en bs be e) = entry_key e.
Proof.
  unfold upsert_row. destruct (is_todays_entry env uid e) eqn:H; [| reflexivity].
  apply is_todays_entry_key in H. now rewrite H.
Qed.

Lemma upsert_row_today env uid st en bs be (e : entry_row) :
  is_todays_entry env uid (upsert_row env uid st en bs be e)
  = is_todays_entry env uid e.
Proof.
  destruct (is_todays_entry env uid e) eqn:H.
  - apply is_todays_entry_key. rewrite upsert_row_key.
    now apply is_todays_entry_key.
  - unfold upsert_row. now rewrite H.
Qed.

Lemma sequence_rows_entry (eid order : Z) (ids : list Z) (r : daily_location_row) :
  In r (sequence_rows eid order ids) ->
  dl_entry_id r = eid /\ order <= dl_sequence_order r.
Proof.
  revert order. induction ids as [| i rest IH]; intros order; cbn; [intros [] |].
  intros [<- | Hin]; [cbn; lia |].
  destruct (IH _ Hin). lia.
Qed.

Lemma sequence_rows_positions (eid order : Z) (ids : list Z) :
  NoDup (map position_key (sequence_rows eid order ids)).
Proof.
  revert order. induction ids as [| i rest IH]; intros order; cbn;
    constructor; [| apply IH].
  intros Hin. apply in_map_iff in Hin. destruct Hin as (r & Hkey & Hr).
  apply sequence_rows_entry in Hr. unfold position_key in Hkey.
  cbn in Hkey. inversion Hkey. lia.
Qed.

Lemma positions_after_delete (eid : Z) (rows : list daily_location_row) :
  NoDup (map position_key rows) ->
  NoDup (map position_key
             (filter (fun r => negb (dl_entry_id r =? eid)) rows)).
Proof.
  induction rows as [| row rows IH]; cbn [map filter]; intros Hkeys;
    [constructor |].
  apply NoDup_cons_iff in Hkeys. destruct Hkeys as [Hfresh Hrest].
  destruct (negb (dl_entry_id row =? eid)); cbn [map]; [| auto].
  apply NoDup_cons_iff. split; [| auto].
  intros Hin. apply Hfresh. apply in_map_iff in Hin.
  destruct Hin as (other & Hsame & Hother).
  apply filter_In in Hother. apply in_map_iff. exists other. tauto.
Qed.

(** The keys survive a committed [save_entry]. *)
Lemma keys_after_save env uid st en bs be ids d eid d1 :
  keys_ok d ->
  upsert_entry env uid st en bs be d = Ok (eid, d1) ->
  keys_ok (mk_db (locations d) (daily_entries d1)
                 (filter (fun r => negb (dl_entry_id r =? eid)) (daily_locations d)
                  ++ sequence_rows eid 1 ids)).
Proof.
  intros [K1 K2 K3 K4] Hup.
  constructor; cbn [locations daily_entries daily_locations].
  - exact K1.
  - destruct (upsert_entry_done _ _ _ _ _ _ _ _ _ Hup)
      as [(old & _ & _ & ->) | (_ & -> & ->)].
    + rewrite map_map.
      rewrite (map_ext _ ent_id (upsert_row_id env uid st en bs be)). exact K2.
    + rewrite map_app. apply NoDup_app; [exact K2 | | ].
      * cbn. constructor; [intros [] | constructor].
      * intros i Hi [<- | []]. exact (next_id_fresh _ Hi).
  - destruct (upsert_entry_done _ _ _ _ _ _ _ _ _ Hup)
      as [(old & _ & _ & ->) | (Hnone & _ & ->)].
    + rewrite map_map.
      rewrite (map_ext _ entry_key (upsert_row_key env uid st en bs be)).
      exact K3.
    + rewrite map_app. apply NoDup_app; [exact K3 | | ].
      * cbn. constructor; [intros [] | constructor].
      * intros key Hkey [<- | []]. apply in_map_iff in Hkey.
        destruct Hkey as (e & He & Hin).
        pose proof (find_none _ _ Hnone e Hin) as Hnot.
        assert (Hyes : is_todays_entry env uid e = true)
          by (apply is_todays_entry_key; exact He).
        congruence.
  - rewrite map_app. apply NoDup_app.
    + apply positions_after_delete. exact K4.
    + apply sequence_rows_positions.
    + intros key Hold Hnew. apply in_map_iff in Hold, Hnew.
      destruct Hold as (r1 & Hk1 & Hr1), Hnew as (r2 & Hk2 & Hr2).
      apply filter_In in Hr1. destruct Hr1 as [_ Hne].
      apply sequence_rows_entry in Hr2. destruct Hr2 as [Heq _].
      apply negb_true_iff, Z.eqb_neq in Hne. apply Hne.
      unfold position_key in *. rewrite <- Hk2 in Hk1. inversion Hk1.
      congruence.
Qed.

(** X22.  [save_entry] keeps the keys of the store: if location ids,
    entry ids, entries per user and date, and positions per entry are
    unique before the call, they are unique after it, whatever it
    returned. *)
Theorem save_entry_keeps_keys :
  forall (env : backend) (uid : Z) (st en : string) (bs be : option string)
         (ids : list Z) (d : db),
    keys_ok d ->
    keys_ok (snd (fst (run (save_entry env uid st en bs be ids) d))).
Proof.
  intros env uid st en bs be ids d Hkeys.
  destruct (run (save_entry env uid st en bs be ids) d) as [[r d'] tr] eqn:Hrun.
  cbn [fst snd].
  assert (Hcases : (exists msg, r = Ok (true, msg)) \/ d' = d).
  { unfold run in Hrun.
    destruct (save_entry env uid st en bs be ids (mk_session d None []))
      as [r1 s1] eqn:E.
    inversion Hrun; subst.
    destruct (save_entry_guarded env uid st en bs be ids _ _ _ E)
      as [(a & -> & Ha) | [S1 _]]; [left | right; exact S1].
    unfold saved in Ha. subst a. eauto. }
  destruct Hcases as [(msg & ->) | ->]; [| exact Hkeys].
  destruct (save_entry_committed _ _ _ _ _ _ _ _ _ _ _ Hrun)
    as (eid & d1 & _ & _ & _ & Hup & _ & ->).
  exact (keys_after_save _ _ _ _ _ _ ids _ _ _ Hkeys Hup).
Qed.

Lemma save_entry_keeps_keys_witness :
  keys_ok (snd (fst (run (save_entry Examples.plain 7 "09:00" "18:00" None None
                            [5; 3]) Examples.with_entry))).
Proof.
  apply (save_entry_keeps_keys Examples.plain 7 "09:00" "18:00" None None
           [5; 3] Examples.with_entry).
  constructor; cbn; repeat constructor; cbn; intuition discriminate.
Defined.

Lemma entry_id_inj (l : list entry_row) (a b : entry_row) :
  NoDup (map ent_id l) -> In a l -> In b l -> ent_id a = ent_id b -> a = b.
Proof.
  induction l as [| x l IH]; cbn [map In]; intros Hkeys Ha Hb Hid; [contradiction |].
  apply NoDup_cons_iff in Hkeys. destruct Hkeys as [Hfresh Hrest].
  destruct Ha as [-> | Ha], Hb as [-> | Hb]; auto.
  - exfalso. apply Hfresh. rewrite Hid. now apply in_map.
  - exfalso. apply Hfresh. rewrite <- Hid. now apply in_map.
Qed.

Lemma route_of_other_entry (eid j order : Z) (ids : list Z)
    (rows : list daily_location_row) :
  j <> eid ->
  filter (fun r => dl_entry_id r =? j)
         (filter (fun r => negb (dl_entry_id r =? eid)) rows
          ++ sequence_rows eid order ids)
  = filter (fun r => dl_entry_id r =? j) rows.
Proof.
  intros Hne. rewrite filter_app.
  replace (filter (fun r => dl_entry_id r =? j) (sequence_rows eid order ids))
    with (@nil daily_location_row).
  - rewrite app_nil_r. induction rows as [| r rows IH]; cbn [filter]; [reflexivity |].
    destruct (Z.eqb_spec (dl_entry_id r) eid) as [He | He]; cbn [negb filter].
    + rewrite IH. rewrite He.
      destruct (Z.eqb_spec eid j); [congruence | reflexivity].
    + rewrite IH. reflexivity.
  - revert order. induction ids as [| i rest IH]; intros order; cbn; [reflexivity |].
    destruct (Z.eqb_spec eid j); [congruence | apply IH].
Qed.

(** X23.  [save_entry] touches only the caller's entry for today: it
    never changes the [locations] table, and every other entry (another
    user's, or of another date) is still stored unchanged with exactly
    the route it had, whatever the call returned. *)
Theorem save_entry_leaves_others :
  forall (env : backend) (uid : Z) (st en : string) (bs be : option string)
         (ids : list Z) (d : db),
    keys_ok d ->
    locations (snd (fst (run (save_entry env uid st en bs be ids) d)))
    = locations d
    /\ forall e,
         In e (daily_entries d) ->
         is_todays_entry env uid e = false ->
         In e (daily_entries
                 (snd (fst (run (save_entry env uid st en bs be ids) d))))
         /\ filter (fun r => dl_entry_id r =? ent_id e)
                   (daily_locations
                      (snd (fst (run (save_entry env uid st en bs be ids) d))))
            = filter (fun r => dl_entry_id r =? ent_id e) (daily_locations d).
Proof.
  intros env uid st en bs be ids d Hkeys.
  destruct (run (save_entry env uid st en bs be ids) d) as [[r d'] tr] eqn:Hrun.
  cbn [fst snd].
  assert (Hcases : (exists msg, r = Ok (true, msg)) \/ d' = d).
  { unfold run in Hrun.
    destruct (save_entry env uid st en bs be ids (mk_session d None []))
      as [r1 s1] eqn:E.
    inversion Hrun; subst.
    destruct (save_entry_guarded env uid st en bs be ids _ _ _ E)
      as [(a & -> & Ha) | [S1 _]]; [left | right; exact S1].
    unfold saved in Ha. subst a. eauto. }
  destruct Hcases as [(msg & ->) | ->]; [| auto].
  destruct (save_entry_committed _ _ _ _ _ _ _ _ _ _ _ Hrun)
    as (eid & d1 & _ & _ & _ & Hup & _ & ->).
  cbn [locations daily_entries daily_locations].
  split; [reflexivity |]. intros e He Hnot.
  destruct (upsert_entry_done _ _ _ _ _ _ _ _ _ Hup)
    as [(old & Hfind & -> & ->) | (_ & -> & ->)].
  - apply find_some in Hfind. destruct Hfind as [Hold Htoday]. split.
    + apply in_map_iff. exists e. split; [| exact He].
      unfold upsert_row. now rewrite Hnot.
    + apply route_of_other_entry. intros Hid.
      assert (e = old)
        by exact (entry_id_inj _ _ _ (entry_ids_ok d Hkeys) He Hold Hid).
      congruence.
  - split; [apply in_or_app; left; exact He |].
    apply route_of_other_entry.
    pose proof (next_id_above (map ent_id (daily_entries d)) (ent_id e)
                  (in_map ent_id _ _ He)). lia.
Qed.

Lemma save_entry_leaves_others_witness :
  locations (snd (fst (run (save_entry Examples.plain 8 "09:00" "18:00" None
                              None [5]) Examples.with_entry)))
  = locations Examples.with_entry.
Proof.
  apply (save_entry_leaves_others Examples.plain 8 "09:00" "18:00" None None
           [5] Examples.with_entry).
  constructor; cbn; repeat constructor; cbn; intuition discriminate.
Defined.

(** Every way [get_todays_entry] can run. *)
Lemma get_todays_entry_run env uid d :
  run (get_todays_entry env uid) d =
  match select_todays_entry env uid d with
  | None => (Ok None, d, [EvConnect; EvSelect; EvClose])
  | Some entry =>
      (Ok (Some [("id", VScalar (VInt (ent_id entry)));
                 ("start_time", VScalar (VStr (ent_start_time entry)));
                 ("end_time", VScalar (VStr (ent_end_time entry)));
                 ("locations", VRows (select_entry_locations (ent_id entry) d))]),
       d, [EvConnect; EvSelect; EvSelect; EvClose])
  end.
Proof.
  unfold run, get_todays_entry, try_finally, bind, get_db_connection, query,
    close, ret, log, view.
  cbn [txn store trace].
  destruct (select_todays_entry env uid d); reflexivity.
Qed.








Lemma get_user_locations_spec_witness :
  exists rows,
    run (get_user_locations String.ltb 7) Examples.two_owners
    = (Ok (map location_dict rows), Examples.two_owners,
       [EvConnect; EvSelect; EvClose])
    /\ In (mk_location 3 7 "Kitchen" None true) rows.
Proof.
  destruct (get_user_locations_spec String.ltb 7 Examples.two_owners)
    as (rows & Hrun & _ & _ & Hmem).
  exists rows. split; [exact Hrun |].
  apply Hmem. cbn. auto.
Defined.


(** ** Saving an entry and reading it back *)

Lemma find_after_upsert env uid st en bs be (l : list entry_row) :
  find (is_todays_entry env uid) (map (upsert_row env uid st en bs be) l)
  = option_map (upsert_row env uid st en bs be)
               (find (is_todays_entry env uid) l).
Proof.
  induction l as [| e l IH]; cbn [map find]; [reflexivity |].
  rewrite upsert_row_today.
  destruct (is_todays_entry env uid e); [reflexivity | exact IH].
Qed.

Lemma find_after_insert env uid (l : list entry_row) (row : entry_row) :
  find (is_todays_entry env uid) l = None ->
  is_todays_entry env uid row = true ->
  find (is_todays_entry env uid) (l ++ [row]) = Some row.
Proof.
  intros Hnone Hrow. induction l as [| e l IH]; cbn [app find] in *.
  - now rewrite Hrow.
  - destruct (is_todays_entry env uid e); [discriminate Hnone | exact (IH Hnone)].
Qed.

(** After the upsert, today's entry of the user is the saved row. *)
Lemma todays_entry_after_upsert env uid st en bs be d eid d1 :
  upsert_entry env uid st en bs be d = Ok (eid, d1) ->
  find (is_todays_entry env uid) (daily_entries d1)
  = Some (saved_entry env eid uid st en bs be).
Proof.
  intros Hup.
  assert (Hsaved : forall i,
             is_todays_entry env uid (saved_entry env i uid st en bs be) = true).
  { intros i. apply is_todays_entry_key. reflexivity. }
  destruct (upsert_entry_done _ _ _ _ _ _ _ _ _ Hup)
    as [(old & Hfind & -> & ->) | (Hnone & -> & ->)].
  - rewrite find_after_upsert, Hfind. cbn [option_map].
    apply find_some in Hfind. destruct Hfind as [_ Hold].
    unfold upsert_row. now rewrite Hold.
  - apply find_after_insert; [exact Hnone | apply Hsaved].
Qed.

Lemma no_location_with_id (locs : list location_row) (i : Z) :
  ~ In i (map loc_id locs) -> filter (fun l' => i =? loc_id l') locs = [].
Proof.
  induction locs as [| b rest IH]; cbn [map In filter]; intros Hfresh;
    [reflexivity |].
  destruct (Z.eqb_spec i (loc_id b)) as [Heq | Hne].
  - exfalso. apply Hfresh. auto.
  - apply IH. intros H. apply Hfresh. auto.
Qed.

Lemma location_by_id (locs : list location_row) (l : location_row) :
  NoDup (map loc_id locs) -> In l locs ->
  filter (fun l' => loc_id l =? loc_id l') locs = [l].
Proof.
  induction locs as [| a rest IH]; cbn [map In filter]; intros Hkeys Hin;
    [contradiction |].
  apply NoDup_cons_iff in Hkeys. destruct Hkeys as [Hfresh Hrest].
  destruct Hin as [-> | Hin].
  - rewrite Z.eqb_refl. f_equal. exact (no_location_with_id rest _ Hfresh).
  - destruct (Z.eqb_spec (loc_id l) (loc_id a)) as [Heq | Hne].
    + exfalso. apply Hfresh. rewrite <- Heq. now apply in_map.
    + exact (IH Hrest Hin).
Qed.

(** Joining the new route with [locations] gives one pair per stop. *)
Lemma join_new_route (eid : Z) (d : db) (ids : list Z) :
  NoDup (map loc_id (locations d)) ->
  (forall i, In i ids -> is_active_location d i) ->
  forall order,
  exists ls,
    map loc_id ls = ids
    /\ flat_map (join_location eid d) (sequence_rows eid order ids)
       = route ls eid order.
Proof.
  intros Hkey. induction ids as [| i rest IH]; intros Hactive order.
  - exists []. split; reflexivity.
  - destruct (Hactive i (or_introl eq_refl)) as (l & Hl & Hid & _).
    destruct (IH (fun j Hj => Hactive j (or_intror Hj)) (order + 1))
      as (ls & Hids & Hjoin).
    exists (l :: ls). split; [cbn; congruence |].
    cbn [sequence_rows flat_map route]. rewrite Hjoin.
    unfold join_location at 1. cbn [dl_entry_id dl_location_id].
    rewrite Z.eqb_refl, <- Hid, (location_by_id _ l Hkey Hl). reflexivity.
Qed.

Lemma join_deleted_route (eid : Z) (d : db) (rows : list daily_location_row) :
  flat_map (join_location eid d)
           (filter (fun r => negb (dl_entry_id r =? eid)) rows) = [].
Proof.
  induction rows as [| r rows IH]; cbn [filter]; [reflexivity |].
  destruct (dl_entry_id r =? eid) eqn:He; cbn [negb]; [exact IH |].
  cbn [flat_map]. unfold join_location at 1. now rewrite He.
Qed.

Lemma order_by_sequence_route (ls : list location_row) (eid : Z) :
  forall order, order_by_sequence (route ls eid order) = route ls eid order.
Proof.
  induction ls as [| l rest IH]; intros order; [reflexivity |].
  cbn [route order_by_sequence fold_right].
  fold (order_by_sequence (route rest eid (order + 1))). rewrite IH.
  destruct rest as [| l' rest']; [reflexivity |].
  cbn [route insert_by_order snd dl_sequence_order].
  replace (order <? order + 1) with true by (symmetry; apply Z.ltb_lt; lia).
  reflexivity.
Qed.

Lemma route_ids (ls : list location_row) (eid : Z) :
  forall order,
    map (row_get "id") (map joined_row (route ls eid order))
    = map (fun i => Some (VInt i)) (map loc_id ls)
    /\ map (row_get "sequence_order") (map joined_row (route ls eid order))
       = map (fun k => Some (VInt k)) (positions order (List.length ls)).
Proof.
  induction ls as [| l rest IH]; intros order; [split; reflexivity |].
  destruct (IH (order + 1)) as [H1 H2].
  cbn [route map List.length positions]. rewrite H1, H2. split; reflexivity.
Qed.

(** X25.  Round trip of an entry: after [save_entry] reported success,
    [get_todays_entry] for the same user returns the start and end
    strings that were saved and, as [locations], one row per saved
    location id, in the saved order, at positions 1, 2, ... (location ids
    being a key of [locations]). *)
Theorem save_entry_then_get :
  forall (env : backend) (uid : Z) (st en : string) (bs be : option string)
         (ids : list Z) (d d' : db) (msg : string) (tr : list event),
    NoDup (map loc_id (locations d)) ->
    run (save_entry env uid st en bs be ids) d = (Ok (true, msg), d', tr) ->
    exists eid rows,
      run (get_todays_entry env uid) d'
      = (Ok (Some [("id", VScalar (VInt eid));
                   ("start_time", VScalar (VStr st));
                   ("end_time", VScalar (VStr en));
                   ("locations", VRows rows)]),
         d', [EvConnect; EvSelect; EvSelect; EvClose])
      /\ map (row_get "id") rows = map (fun i => Some (VInt i)) ids
      /\ map (row_get "sequence_order") rows
         = map (fun k => Some (VInt k)) (positions 1 (List.length ids)).
Proof.
  intros env uid st en bs be ids d d' msg tr Hkey Hrun.
  destruct (save_entry_committed _ _ _ _ _ _ _ _ _ _ _ Hrun)
    as (eid & d1 & _ & _ & Hcount & Hup & _ & ->).
  pose proof (count_full_active ids d Hkey Hcount) as Hactive.
  set (d' := mk_db (locations d) (daily_entries d1)
                   (filter (fun r => negb (dl_entry_id r =? eid))
                           (daily_locations d) ++ sequence_rows eid 1 ids)).
  assert (Hactive' : forall i, In i ids -> is_active_location d' i)
    by exact Hactive.
  destruct (join_new_route eid d' ids Hkey Hactive' 1) as (ls & Hids & Hjoin).
  exists eid, (map joined_row (route ls eid 1)).
  rewrite get_todays_entry_run. unfold select_todays_entry.
  change (daily_entries d') with (daily_entries d1).
  rewrite (todays_entry_after_upsert _ _ _ _ _ _ _ _ _ Hup).
  cbn [saved_entry ent_id ent_start_time ent_end_time].
  assert (Hsel : select_entry_locations eid d' = map joined_row (route ls eid 1)).
  { change (select_entry_locations eid d')
      with (map joined_row
                (order_by_sequence
                   (flat_map (join_location eid d') (daily_locations d')))).
    change (daily_locations d')
      with (filter (fun r => negb (dl_entry_id r =? eid)) (daily_locations d)
            ++ sequence_rows eid 1 ids).
    rewrite flat_map_app, join_deleted_route, Hjoin. cbn [app].
    now rewrite order_by_sequence_route. }
  rewrite Hsel. split; [reflexivity |].
  destruct (route_ids ls eid 1) as [H1 H2].
  rewrite H1, H2, Hids, <- Hids, length_map. split; reflexivity.
Qed.

Lemma save_entry_then_get_witness :
  exists eid rows,
    fst (fst (run (get_todays_entry Examples.plain 7)
                  (snd (fst (run (save_entry Examples.plain 7 "09:00" "18:00"
                                    None None [5; 3]) Examples.with_entry)))))
    = Ok (Some [("id", VScalar (VInt eid));
                ("start_time", VScalar (VStr "09:00"));
                ("end_time", VScalar (VStr "18:00"));
                ("locations", VRows rows)])
    /\ map (row_get "id") rows = [Some (VInt 5); Some (VInt 3)].
Proof.
  pose (out := run (save_entry Examples.plain 7 "09:00" "18:00" None None [5; 3])
                   Examples.with_entry).
  assert (E : out = (Ok (true, msg_saved), snd (fst out),
                     [EvConnect; EvSelect; EvBegin; EvUpsert; EvDelete;
                      EvInsert; EvInsert; EvCommit; EvClose]))
    by (vm_compute; reflexivity).
  assert (K : NoDup (map loc_id (locations Examples.with_entry))).
  { cbn. repeat constructor; cbn; intuition discriminate. }
  destruct (save_entry_then_get _ _ _ _ _ _ _ _ _ _ _ K E)
    as (eid & rows & Hget & Hid & _).
  exists eid, rows. fold out. rewrite Hget. split; [reflexivity | exact Hid].
Defined.
